(** * three-csg: the interface converters of [src/utils/interface.js]

    A shallow embedding of [importThreeGeometry], [exportThreeGeometry],
    [prepareObjects] and [runOperation], and the properties of the export
    transform (fan triangulation, bucketing of corners by rounded
    position, greedy grouping of normals, emission of the flat buffers).
    The [Vertex] class, whose [pos] the converters read, is embedded
    with its methods.

    JavaScript numbers, [Number.prototype.toFixed] and the methods of
    [THREE.Vector3] are library code; the development is parametric in
    them (class [Numerics]).  Arrays are lists; the [vertexMap] object is
    an association list in insertion order, which is the order
    [Object.values] follows for keys that are not array indices (every
    key built on line 65 contains an underscore).  The [face] arrays
    shared between [faces] and the [vertexMap] entries are modelled by a
    store ([list Face]) and references into it (the position of the array
    in [faces]). *)

From stdpp Require Import base list strings sorting.
From Stdlib Require Import Ascii QArith Qabs Qround DecimalString.
Local Open Scope nat_scope.

(** ** Data model *)

(** A [face] array of [faces]: three vertex numbers. *)
Abbreviation Face := (list nat).

Section DataModel.
Context {num : Type}.

(** [Vector] of [math/index] and [THREE.Vector3]: three components. *)
Record Vector3 := mkVector3 { x : num; y : num; z : num }.

(** [THREE.Color] *)
Record Color := mkColor { r : num; g : num; b : num }.

(** [Vertex]: [this.pos = pos]. *)
Record Vertex := mkVertex { pos : Vector3 }.

(** [polygon.shared.color]: an array of three or four components. *)
Record SharedColor := mkSharedColor
  { color0 : num; color1 : num; color2 : num; color3 : option num }.

(** [Polygon]: [vertices], [plane.normal], [shared.color]. *)
Record Polygon := mkPolygon
  { vertices : list Vertex;
    plane_normal : Vector3;
    shared_color : option SharedColor }.

(** [CSG]: the polygons and the two cache flags set by the import. *)
Record CSG := mkCSG
  { polygons : list Polygon;
    isCanonicalized : bool;
    isRetesselated : bool }.

(** [THREE.BufferGeometry]: the index (if any) and the attributes
    [position], [normal] and [color]. *)
Record BufferGeometry := mkBufferGeometry
  { index : option (list nat);
    attr_position : list num;
    attr_normal : option (list num);
    attr_color : option (list num) }.

(** What the converters are given: a [CSG] or a buffer geometry. *)
Inductive Geometry :=
| GeomCSG (csg : CSG)
| GeomBuffer (geometry : BufferGeometry).

(** An entry of [vertexMap] (line 74). [ve_faces] holds the pairs
    [[face, idx]]: a reference to a face array and a corner of it. *)
Record VertexEntry := mkVertexEntry
  { ve_vertex : Vector3;
    ve_colours : list Color;
    ve_normals : list Vector3;
    ve_faces : list (nat * nat) }.

Definition VertexMap := list (string * VertexEntry).
End DataModel.

Arguments Vector3 : clear implicits.
Arguments Color : clear implicits.
Arguments Vertex : clear implicits.
Arguments SharedColor : clear implicits.
Arguments Polygon : clear implicits.
Arguments CSG : clear implicits.
Arguments BufferGeometry : clear implicits.
Arguments Geometry : clear implicits.
Arguments VertexEntry : clear implicits.
Arguments VertexMap : clear implicits.

(** ** The numeric environment *)

(** JavaScript numbers and the library calls the converters make. *)
Class Numerics (num : Type) := {
  (** [Number.prototype.toFixed(digits)] *)
  toFixed : num -> nat -> string;
  (** [a <= b] *)
  num_le : num -> num -> bool;
  (** the literals [0] and [1] *)
  num_0 : num;
  num_1 : num;
  (** [40*Math.PI/180], the default [smoothingAngle] *)
  defaultSmoothingAngle : num;
  (** [THREE.Vector3.prototype.add], [normalize], [angleTo] *)
  V3_add : Vector3 num -> Vector3 num -> Vector3 num;
  V3_normalize : Vector3 num -> Vector3 num;
  V3_angleTo : Vector3 num -> Vector3 num -> num;
  (** storing a number in a [Float32Array] *)
  fround : num -> num;
}.

(** ** The shared store of face arrays *)

(** [face[idx]] *)
Definition read_slot (faces : list Face) (face idx : nat) : option nat :=
  faces !! face ≫= (.!! idx).

(** [face[idx] = v], through a reference to the array. The export only
    writes the places 0, 1 and 2 of arrays that have them, so the write is
    never out of range (where JavaScript would extend the array and the
    update below leaves it as it is). *)
Definition write_slot (faces : list Face) (face idx v : nat) : list Face :=
  alter (<[idx := v]>) face faces.

(** ** Outcomes *)

(** What a call can end in. The converters construct no error of their
    own; a TypeError is what JavaScript raises when [runOperation] reads a
    property of [undefined] or calls something that is not a function,
    and a ReferenceError when a name is read that nothing binds. *)
Inductive JSError :=
  ValidationError | UnsupportedOperationError | TypeError | ReferenceError.

Inductive Outcome (A : Type) :=
| Returns (a : A)
| Throws (e : JSError).
Arguments Returns {A} a.
Arguments Throws {A} e.

Definition bindOutcome {A B} (o : Outcome A) (f : A -> Outcome B) : Outcome B :=
  match o with
  | Returns a => f a
  | Throws e => Throws e
  end.

Notation "'let!' a ':=' o 'in' k" := (bindOutcome o (fun a => k))
  (at level 10, a name, o at level 100, k at level 200).

(** ** [exportThreeGeometry] *)

Section ExportGeometry.
Context {num : Type} `{Numerics num}.

Definition VERTEX_PRECISION : nat := 4.

(** Line 65. *)
Definition hash (vertex : Vector3 num) : string :=
  toFixed (x vertex) VERTEX_PRECISION +:+ "_" +:+
  toFixed (y vertex) VERTEX_PRECISION +:+ "_" +:+
  toFixed (z vertex) VERTEX_PRECISION.

(** [vertexMap[hash]] *)
Fixpoint vm_lookup (h : string) (vertexMap : VertexMap num)
  : option (VertexEntry num) :=
  match vertexMap with
  | [] => None
  | (k, e) :: rest => if String.eqb k h then Some e else vm_lookup h rest
  end.

(** Lines 69-71: the three pushes on the entry found under [h]. *)
Definition entry_push (normalVec : Vector3 num) (threeColor : Color num)
    (face idx : nat) (e : VertexEntry num) : VertexEntry num :=
  {| ve_vertex := ve_vertex e;
     ve_colours := ve_colours e ++ [threeColor];
     ve_normals := ve_normals e ++ [normalVec];
     ve_faces := ve_faces e ++ [(face, idx)] |}.

Fixpoint vm_alter (f : VertexEntry num -> VertexEntry num) (h : string)
    (vertexMap : VertexMap num) : VertexMap num :=
  match vertexMap with
  | [] => []
  | (k, e) :: rest =>
      if String.eqb k h then (k, f e) :: rest
      else (k, e) :: vm_alter f h rest
  end.

(** Lines 64-75: one corner of one face. A new key goes to the end of
    the map. *)
Definition addCorner (normalVec : Vector3 num) (threeColor : Color num)
    (face : nat) (vertexMap : VertexMap num) (idx : nat)
    (vertex : Vector3 num) : VertexMap num :=
  let h := hash vertex in
  match vm_lookup h vertexMap with
  | Some _ => vm_alter (entry_push normalVec threeColor face idx) h vertexMap
  | None =>
      vertexMap ++
      [(h, {| ve_vertex := vertex; ve_colours := [threeColor];
              ve_normals := [normalVec]; ve_faces := [(face, idx)] |})]
  end.

(** Lines 61-76: the face of fan position [x]. [polygon.vertices[vertIdx]]
    is defined for the three corners whenever the loop of line 60 runs;
    a missing vertex would raise a TypeError, and is skipped here. *)
Definition addFace (polygon : Polygon num) (normalVec : Vector3 num)
    (threeColor : Color num) (st : VertexMap num * list Face) (x : nat)
    : VertexMap num * list Face :=
  let '(vertexMap, faces) := st in
  let face := length faces in
  let faces := faces ++ [[0; 0; 0]] in
  (foldl (fun vm '(idx, vertIdx) =>
            match vertices polygon !! vertIdx with
            | Some vertex => addCorner normalVec threeColor face vm idx (pos vertex)
            | None => vm
            end)
         vertexMap (imap pair [0; x + 1; x + 2]),
   faces).

(** Lines 52-58. *)
Definition polygonColor (polygon : Polygon num) : Color num :=
  match shared_color polygon with
  | Some c => mkColor (color0 c) (color1 c) (color2 c)
  | None => mkColor num_1 num_1 num_1
  end.

Record BuildState := mkBuildState
  { bs_vertexMap : VertexMap num;
    bs_faces : list Face;
    bs_colorsUsed : bool }.

(** Lines 48-78: the body of [geometry.polygons.forEach]. *)
Definition addPolygon (st : BuildState) (polygon : Polygon num) : BuildState :=
  let normalVec := plane_normal polygon in
  let colorsUsed :=
    match shared_color polygon with
    | Some _ => true
    | None => bs_colorsUsed st
    end in
  let threeColor := polygonColor polygon in
  let '(vertexMap, faces) :=
    foldl (addFace polygon normalVec threeColor)
          (bs_vertexMap st, bs_faces st)
          (seq 0 (length (vertices polygon) - 2)) in
  mkBuildState vertexMap faces colorsUsed.

Definition buildVertexMap (polygons : list (Polygon num)) : BuildState :=
  foldl addPolygon (mkBuildState [] [] false) polygons.

(** Lines 92-101: the scan of [j] from [i] on, for the seed [i]. *)
Definition scanStep (smoothingAngle : num) (normals : list (Vector3 num))
    (i : nat) (st : list bool * list nat) (j : nat) : list bool * list nat :=
  let '(ungroupedNormals, currGroup) := st in
  match ungroupedNormals !! j with
  | Some true =>
      match normals !! i, normals !! j with
      | Some iNorm, Some jNorm =>
          if num_le (V3_angleTo iNorm jNorm) smoothingAngle
          then (<[j := false]> ungroupedNormals, currGroup ++ [j])
          else st
      | _, _ => st
      end
  | _ => st
  end.

(** Lines 88-104: the body of the loop on [i]. *)
Definition groupStep (smoothingAngle : num) (normals : list (Vector3 num))
    (st : list bool * list (list nat)) (i : nat)
    : list bool * list (list nat) :=
  let '(ungroupedNormals, groupedNormals) := st in
  match ungroupedNormals !! i with
  | Some true =>
      let '(ungroupedNormals, currGroup) :=
        foldl (scanStep smoothingAngle normals i)
              (<[i := false]> ungroupedNormals, [i])
              (seq i (length normals - i)) in
      (ungroupedNormals, groupedNormals ++ [currGroup])
  | _ => st
  end.

(** Lines 84-105. *)
Definition groupNormals (smoothingAngle : num) (normals : list (Vector3 num))
    : list (list nat) :=
  snd (foldl (groupStep smoothingAngle normals)
             (const true <$> normals, [])
             (seq 0 (length normals))).

(** Lines 111-116. *)
Definition averageNormal (normals : list (Vector3 num))
    (currNormalIndices : list nat) : Vector3 num :=
  V3_normalize
    (foldl (fun avgNormal j =>
              match normals !! j with
              | Some currNormal => V3_add avgNormal currNormal
              | None => avgNormal
              end)
           (mkVector3 num_0 num_0 num_0) currNormalIndices).

Record OutState := mkOutState
  { os_vertices : list num;
    os_normalVecs : list num;
    os_colors : list num;
    os_faces : list Face }.

(** Lines 119-131: one member of a group gets the next vertex number. *)
Definition emitMember (e : VertexEntry num) (avgNormal : Vector3 num)
    (st : OutState) (currIndex : nat) : OutState :=
  match ve_colours e !! currIndex, ve_faces e !! currIndex with
  | Some currColour, Some (face, idx) =>
      {| os_faces := write_slot (os_faces st) face idx (length (os_vertices st) / 3);
         os_vertices := os_vertices st ++
           [x (ve_vertex e); y (ve_vertex e); z (ve_vertex e)];
         os_normalVecs := os_normalVecs st ++
           [x avgNormal; y avgNormal; z avgNormal];
         os_colors := os_colors st ++
           [r currColour; g currColour; b currColour] |}
  | _, _ => st
  end.

(** Lines 108-134: the body of the loop on the groups. *)
Definition emitGroup (e : VertexEntry num) (st : OutState)
    (currNormalIndices : list nat) : OutState :=
  foldl (emitMember e (averageNormal (ve_normals e) currNormalIndices))
        st currNormalIndices.

(** Lines 81-135: the body of [Object.values(vertexMap).forEach]. *)
Definition emitEntry (smoothingAngle : num) (st : OutState)
    (vertexObj : string * VertexEntry num) : OutState :=
  foldl (emitGroup vertexObj.2) st
        (groupNormals smoothingAngle (ve_normals vertexObj.2)).

(** Lines 137-143. *)
Definition flattenFaces (faces : list Face) : list nat :=
  face ← faces; [face !!! 0; face !!! 1; face !!! 2].

(** Lines 38-150, for a [CSG]. *)
Definition exportCSG (csg : CSG num) (smoothingAngle : num)
    : BufferGeometry num :=
  let built := buildVertexMap (polygons csg) in
  let out :=
    foldl (emitEntry smoothingAngle)
          (mkOutState [] [] [] (bs_faces built))
          (bs_vertexMap built) in
  {| attr_position := fround <$> os_vertices out;
     attr_normal := Some (fround <$> os_normalVecs out);
     attr_color :=
       if bs_colorsUsed built then Some (fround <$> os_colors out) else None;
     index := Some (flattenFaces (os_faces out)) |}.

(** [geometry instanceof _CSG], as on line 9: the object is a mesh. *)
Definition instanceof_CSG (geometry : Geometry num) : bool :=
  match geometry with
  | GeomCSG _ => true
  | GeomBuffer _ => false
  end.

(** Line 35 reads the name [CSG], which the module does not bind: line 3
    imports the class of the meshes as [_CSG]. What [CSG] stands for is
    up to the host. [None]: nothing, and reading the name raises a
    ReferenceError. [Some instanceof]: some value, given by what
    [geometry instanceof CSG] evaluates to for it (a TypeError when the
    value is not callable). *)
Definition GlobalCSG : Type := option (Geometry num -> Outcome bool).

(** The host has bound [CSG] to the class that line 3 imports. *)
Definition meshClass : GlobalCSG :=
  Some (fun geometry => Returns (instanceof_CSG geometry)).

(** Lines 34-151. [smoothingAngle] is [None] when the caller gives no
    angle; line 34 then takes the default. Line 35 hands back what is not
    an instance of [CSG]. Past it, line 48 reads [geometry.polygons],
    which a buffer geometry does not have: calling [forEach] of
    [undefined] is a TypeError. *)
Definition exportThreeGeometry (global_CSG : GlobalCSG)
    (geometry : Geometry num) (smoothingAngle : option num)
    : Outcome (Geometry num) :=
  let smoothingAngle := default defaultSmoothingAngle smoothingAngle in
  match global_CSG with
  | None => Throws ReferenceError
  | Some instanceof =>
      let! isInstance := instanceof geometry in
      if negb isInstance then Returns geometry
      else
        match geometry with
        | GeomCSG csg => Returns (GeomBuffer (exportCSG csg smoothingAngle))
        | GeomBuffer _ => Throws TypeError
        end
  end.
End ExportGeometry.

Arguments BuildState : clear implicits.
Arguments OutState : clear implicits.
Arguments GlobalCSG : clear implicits.

(** ** [importThreeGeometry], [prepareObjects], [runOperation] *)

(** The constructors of [math/index], which the import calls. A
    coordinate read outside an array is [undefined] ([None]). *)
Class MathIndex (num : Type) := {
  (** [new Vector(x, y, z)] *)
  Vector_new : option num -> option num -> option num -> Vector3 num;
  (** [new Polygon(vertices)] *)
  Polygon_new : list (Vertex num) -> Polygon num;
}.

(** The colour handed to [runOperation] for one input: [r], [g], [b], and
    whatever alpha it may carry. *)
Record DispatchColor (num : Type) := mkDispatchColor
  { dc_r : num; dc_g : num; dc_b : num; dc_a : option num }.
Arguments mkDispatchColor {num} _ _ _ _.
Arguments dc_r {num} _.
Arguments dc_g {num} _.
Arguments dc_b {num} _.
Arguments dc_a {num} _.

(** The part of [core/index] the dispatch reaches: what [setColor] does
    to its receiver, and the functions found under a property name of a
    [CSG] object ([None]: no such property, or not a function). *)
Class CoreCSG (num value : Type) := {
  setColor : CSG num -> SharedColor num -> CSG num;
  method : string -> option (CSG num -> list (CSG num) -> Outcome value);
}.

Section ImportGeometry.
Context {num : Type} `{MathIndex num}.

(** Line 14, with [y] given. *)
Definition getVector (vertices : list nat) (vectors : list num)
    (x y : nat) : option num :=
  vertices !! x ≫= fun i => vectors !! (i * 3 + y).

(** Line 15. *)
Definition getVertex (vertices : list nat) (vectors : list num)
    (x : nat) : Vertex num :=
  mkVertex (Vector_new (getVector vertices vectors x 0)
                       (getVector vertices vectors x 1)
                       (getVector vertices vectors x 2)).

(** Line 16. *)
Definition getVertex2 (vectors : list num) (x : nat) : Vertex num :=
  mkVertex (Vector_new (vectors !! x) (vectors !! (x + 1)) (vectors !! (x + 2))).

(** Line 17. *)
Definition getVertexes (vertices : list nat) (vectors : list num)
    (x : nat) : list (Vertex num) :=
  [getVertex vertices vectors x;
   getVertex vertices vectors (x + 1);
   getVertex vertices vectors (x + 2)].

(** The values [0, step, 2*step, ...] below [bound] that a loop
    [for (let x = 0; x < bound; x += step)] goes through. *)
Definition strides (step bound : nat) : list nat :=
  (fun k => k * step) <$> seq 0 ((bound + (step - 1)) / step).

(** Lines 8-32. *)
Definition importThreeGeometry (geometry : Geometry num) : Outcome (CSG num) :=
  match geometry with
  | GeomCSG csg => Returns csg
  | GeomBuffer geometry =>
      let vertices := default [] (index geometry) in
      let vectors := attr_position geometry in
      let polygons :=
        if bool_decide (length vertices = 0)
        then (fun x => Polygon_new [getVertex2 vectors x;
                                    getVertex2 vectors (x + 3);
                                    getVertex2 vectors (x + 6)])
               <$> strides 9 (length vectors)
        else (fun x => Polygon_new (getVertexes vertices vectors x))
               <$> strides 3 (length vertices) in
      Returns (mkCSG polygons false false)
  end.
End ImportGeometry.

Section Dispatch.
Context {num value : Type} `{Numerics num} `{MathIndex num} `{CoreCSG num value}.

(** The colour that line 160 hands to [setColor]. *)
Definition appliedColor (c : DispatchColor num) : SharedColor num :=
  mkSharedColor (dc_r c) (dc_g c) (dc_b c) (Some num_1).

(** Line 9 hands a [CSG] input on as the object that it is, and line
    160 colours that object: an object given at several positions is
    coloured at each of them that has a colour, and every one of these
    positions shows the outcome. The object at position [i] stands alone
    when no other position that has a colour holds it; positions with
    different contents hold different objects. *)
Definition stands_alone (objects : list (Geometry num))
    (colors : list (option (DispatchColor num))) (i : nat) : Prop :=
  ∀ j c, j ≠ i → colors !! j = Some (Some c) → objects !! j ≠ objects !! i.

(** Lines 157-163, for the objects from position [index] on. The inputs
    are taken as values: this is what the loop does to inputs that are
    different objects, and what it leaves at a position whose object
    stands alone. *)
Fixpoint prepareFrom (index : nat) (objects : list (Geometry num))
    (colors : list (option (DispatchColor num))) : Outcome (list (CSG num)) :=
  match objects with
  | [] => Returns []
  | object :: rest =>
      let! convertedObject := importThreeGeometry object in
      let convertedObject :=
        match colors !! index with
        | Some (Some c) =>
            setColor convertedObject (appliedColor c)
        | _ => convertedObject
        end in
      let! rest := prepareFrom (S index) rest colors in
      Returns (convertedObject :: rest)
  end.

(** Lines 156-163. *)
Definition prepareObjects (objects : list (Geometry num))
    (colors : list (option (DispatchColor num))) : Outcome (list (CSG num)) :=
  prepareFrom 0 objects colors.

(** Lines 165-171. Without a third argument [colors] is [[]]. *)
Definition runOperation (operation : string) (objects : list (Geometry num))
    (colors : list (option (DispatchColor num))) : Outcome value :=
  let! objects := prepareObjects objects colors in
  match objects with
  | [] => Throws TypeError
  | firstObject :: objects =>
      match method operation with
      | Some f => f firstObject objects
      | None => Throws TypeError
      end
  end.
End Dispatch.

(** ** The corners of a mesh, and what the export makes of them *)

Section Corners.
Context {num : Type} `{Numerics num}.

(** One corner of one face: the face array and the place in it that the
    corner is to fill, the position it is taken from, and the normal and
    colour of its polygon. The same record describes a vertex as it is
    emitted: then [c_vertex] is the position kept by the bucket and
    [c_normal] the normal of the group. *)
Record Corner := mkCorner
  { c_face : nat;
    c_idx : nat;
    c_vertex : Vector3 num;
    c_normal : Vector3 num;
    c_colour : Color num }.

Definition c_ref (c : Corner) : nat * nat := (c_face c, c_idx c).
Definition c_key (c : Corner) : string := hash (c_vertex c).

(** The corners [(0, x+1, x+2)] of fan position [x], for the face
    array number [face]. *)
Definition faceCorners (polygon : Polygon num) (face x : nat) : list Corner :=
  omap (fun '(idx, vertIdx) =>
          (fun vertex => mkCorner face idx (pos vertex) (plane_normal polygon)
                                  (polygonColor polygon))
            <$> vertices polygon !! vertIdx)
       (imap pair [0; x + 1; x + 2]).

(** The corners of a polygon whose first face is number [face0]. *)
Definition polygonCorners (polygon : Polygon num) (face0 : nat) : list Corner :=
  seq 0 (length (vertices polygon) - 2) ≫=
    fun x => faceCorners polygon (face0 + x) x.

Fixpoint cornersFrom (face0 : nat) (polygons : list (Polygon num)) : list Corner :=
  match polygons with
  | [] => []
  | polygon :: rest =>
      polygonCorners polygon face0 ++
      cornersFrom (face0 + (length (vertices polygon) - 2)) rest
  end.

(** The polygon declares a colour ([polygon.shared.color] is truthy). *)
Definition declaresColor (polygon : Polygon num) : bool :=
  match shared_color polygon with Some _ => true | None => false end.

(** All corners of a mesh, in the order the faces are created. *)
Definition corners (polygons : list (Polygon num)) : list Corner :=
  cornersFrom 0 polygons.

(** The number of faces of a mesh, and the number of the first face of
    polygon [i]. *)
Definition faceCount (polygons : list (Polygon num)) : nat :=
  sum_list ((fun polygon => length (vertices polygon) - 2) <$> polygons).

Definition faceOffset (polygons : list (Polygon num)) (i : nat) : nat :=
  faceCount (take i polygons).

Definition insertCorner (vertexMap : VertexMap num) (c : Corner) : VertexMap num :=
  addCorner (c_normal c) (c_colour c) (c_face c) vertexMap (c_idx c) (c_vertex c).

(** The distinct elements of a list, in the order of their first
    occurrence. *)
Fixpoint first_occurrences (l : list string) : list string :=
  match l with
  | [] => []
  | k :: rest => k :: filter (fun k' => k' ≠ k) (first_occurrences rest)
  end.

(** The entry of a bucket that received the corners [l], in this
    order. *)
Definition entryOf (l : list Corner) : VertexEntry num :=
  {| ve_vertex := from_option c_vertex (mkVector3 num_0 num_0 num_0) (head l);
     ve_colours := c_colour <$> l;
     ve_normals := c_normal <$> l;
     ve_faces := c_ref <$> l |}.

(** The corners of [cs] that carry the key [k]. *)
Definition bucketOf (cs : list Corner) (k : string) : list Corner :=
  filter (fun c => c_key c = k) cs.

(** The buckets of a list of corners: one per key, in the order in
    which the keys first occur. *)
Definition buckets (cs : list Corner) : VertexMap num :=
  (fun k => (k, entryOf (bucketOf cs k))) <$> first_occurrences (c_key <$> cs).

(** The vertices that lines 118-132 emit for a group of an entry. *)
Definition emittedGroup (e : VertexEntry num) (currNormalIndices : list nat)
    : list Corner :=
  omap (fun currIndex =>
          match ve_colours e !! currIndex, ve_faces e !! currIndex with
          | Some currColour, Some (face, idx) =>
              Some (mkCorner face idx (ve_vertex e)
                      (averageNormal (ve_normals e) currNormalIndices)
                      currColour)
          | _, _ => None
          end)
       currNormalIndices.

Definition emittedEntry (smoothingAngle : num) (e : VertexEntry num)
    : list Corner :=
  groupNormals smoothingAngle (ve_normals e) ≫= emittedGroup e.

(** All emitted vertices, in the order of their numbers. *)
Definition emitted (smoothingAngle : num) (vertexMap : VertexMap num)
    : list Corner :=
  vertexMap ≫= fun vertexObj => emittedEntry smoothingAngle vertexObj.2.

(** Lines 123-131 for one emitted vertex. *)
Definition emitOne (st : OutState num) (c : Corner) : OutState num :=
  {| os_faces := write_slot (os_faces st) (c_face c) (c_idx c)
                            (length (os_vertices st) / 3);
     os_vertices := os_vertices st ++
       [x (c_vertex c); y (c_vertex c); z (c_vertex c)];
     os_normalVecs := os_normalVecs st ++
       [x (c_normal c); y (c_normal c); z (c_normal c)];
     os_colors := os_colors st ++
       [r (c_colour c); g (c_colour c); b (c_colour c)] |}.

(** ** The grouping, in the words of the specification *)

(** The angle between the normals number [i] and [j] is at most the
    smoothing angle. *)
Definition within (smoothingAngle : num) (normals : list (Vector3 num))
    (i j : nat) : bool :=
  match normals !! i, normals !! j with
  | Some iNorm, Some jNorm => num_le (V3_angleTo iNorm jNorm) smoothingAngle
  | _, _ => false
  end.

(** Section 4.2, step 3: the lowest ungrouped instance is the seed of a
    new group; every later ungrouped instance within the threshold of
    the seed joins it; the others are left for the next seeds. Each
    round removes the seed, so as many rounds as there are instances
    are enough. *)
Fixpoint greedyGroups (rounds : nat) (close : nat -> nat -> bool)
    (ungrouped : list nat) : list (list nat) :=
  match rounds, ungrouped with
  | S rounds, i :: later =>
      (i :: filter (fun j => close i j = true) later) ::
      greedyGroups rounds close (filter (fun j => close i j ≠ true) later)
  | _, _ => []
  end.

Definition smoothingGroups (smoothingAngle : num)
    (normals : list (Vector3 num)) : list (list nat) :=
  greedyGroups (length normals) (within smoothingAngle normals)
               (seq 0 (length normals)).

(** While the loop of lines 92-101 runs for the seed [i]: the instance
    [j] is still ungrouped and within the threshold of the seed. *)
Definition joins (smoothingAngle : num) (normals : list (Vector3 num))
    (i : nat) (ungroupedNormals : list bool) (j : nat) : Prop :=
  ungroupedNormals !! j = Some true ∧ within smoothingAngle normals i j = true.

#[export] Instance joins_dec smoothingAngle normals i ungroupedNormals j :
  Decision (joins smoothingAngle normals i ungroupedNormals j).
Proof. unfold joins. apply _. Defined.

(** The instances from [i] on that are still ungrouped. *)
Definition remaining (normals : list (Vector3 num))
    (ungroupedNormals : list bool) (i : nat) : list nat :=
  filter (fun j => ungroupedNormals !! j = Some true)
         (seq i (length normals - i)).

(** The vector sum of the normals of a group, renormalized. *)
Definition renormalizedSum (normals : list (Vector3 num)) : Vector3 num :=
  V3_normalize (foldl V3_add (mkVector3 num_0 num_0 num_0) normals).

(** The three numbers that a vector and a colour put in a buffer. *)
Definition xyz (v : Vector3 num) : list num := [x v; y v; z v].
Definition rgb (c : Color num) : list num := [r c; g c; b c].

(** The places of the face array number [face]. *)
Definition faceRefs (face : nat) : list (nat * nat) :=
  [(face, 0); (face, 1); (face, 2)].

(** Every face array has its three places. *)
Definition three_places (faces : list Face) : Prop :=
  Forall (fun a => length a = 3) faces.

(** The number of smoothing groups found, over all buckets. *)
Definition smoothingGroupCount (smoothingAngle : num)
    (polygons : list (Polygon num)) : nat :=
  sum_list ((fun vertexObj : string * VertexEntry num =>
               length (groupNormals smoothingAngle (ve_normals vertexObj.2)))
              <$> bs_vertexMap (buildVertexMap polygons)).

(** Triple [i] of a flat buffer. *)
Definition triple {A} (buffer : list A) (i : nat) : list A :=
  take 3 (drop (3 * i) buffer).
End Corners.

Arguments Corner : clear implicits.

(** The polygon vertex that corner [idx] of the triangle number [k] of a
    fan uses: the corners are [(0, k+1, k+2)]. *)
Definition fanVertex (k idx : nat) : nat :=
  match idx with 0 => 0 | _ => k + idx end.

(** The string contains an underscore, the separator of line 65. *)
Fixpoint has_underscore (s : string) : bool :=
  match s with
  | EmptyString => false
  | String a rest => Ascii.eqb a "_"%char || has_underscore rest
  end.

(** The number of vertices and of triangles in a buffer geometry. *)
Definition vertexCount {num} (geometry : BufferGeometry num) : nat :=
  length (attr_position geometry) / 3.

Definition triangleCount {num} (geometry : BufferGeometry num) : nat :=
  length (default [] (index geometry)) / 3.

(** ** The checks the specification asks of the boundary *)

(** Section 6: with indices, their number is a multiple of 3 and each is
    below the number of positions; without, the number of floats is a
    multiple of 9. *)
Definition well_formed_buffer {num} (geometry : BufferGeometry num) : bool :=
  match index geometry with
  | Some indices =>
      bool_decide (length indices mod 3 = 0) &&
      bool_decide (length (attr_position geometry) mod 3 = 0) &&
      forallb (fun i => bool_decide (i < length (attr_position geometry) / 3)) indices
  | None => bool_decide (length (attr_position geometry) mod 9 = 0)
  end.

(** Section 4.4: the operations the specification names. *)
Definition allow_list : list string := ["union"; "subtract"; "intersect"].

(** Modelled from the spec: [setColor] of [core/index] is not among the
    sources. Section 4.4: the colour is applied uniformly to the whole
    mesh, as if every polygon's shared colour were set. *)
Definition setColor_all {num} (csg : CSG num) (color : SharedColor num) : CSG num :=
  mkCSG ((fun polygon => mkPolygon (vertices polygon) (plane_normal polygon) (Some color))
           <$> polygons csg)
        (isCanonicalized csg) (isRetesselated csg).

(** ** [Vertex] *)

(** A vertex object: its [pos], and the [tag] property that [getTag] adds
    to it ([None] as long as the object has no such property). The
    converters above only read [pos]; for them a vertex is a [Vertex]. *)
Record VertexObject (num tag : Type) := mkVertexObject
  { vo_pos : Vector3 num; vo_tag : option tag }.
Arguments mkVertexObject {num tag} _ _.
Arguments vo_pos {num tag} _.
Arguments vo_tag {num tag} _.

(** What [getTag] reaches outside the vertex: the truthiness of a tag
    ([!result]) and the global [window.getTag], which returns a tag and
    may change the state it draws from. *)
Class TagSource (tag world : Type) := {
  truthy : tag -> bool;
  window_getTag : world -> tag * world;
}.

(** The methods of [Vector] that [Vertex] calls: [new Vector(obj.pos)]
    for an untyped [obj.pos], and [pos.lerp(other.pos, t)]. *)
Class VectorClass (num raw : Type) := {
  Vector_of : raw -> Vector3 num;
  Vector_lerp : Vector3 num -> Vector3 num -> num -> Vector3 num;
}.

Section VertexMethods.
Context {num tag world raw : Type} `{TagSource tag world} `{VectorClass num raw}.

(** Lines 10-12: [new Vertex(pos)]. *)
Definition Vertex_new (pos : Vector3 num) : VertexObject num tag :=
  mkVertexObject pos None.

(** Lines 15-18, for an object whose [pos] is [obj_pos]. *)
Definition fromObject (obj_pos : raw) : VertexObject num tag :=
  Vertex_new (Vector_of obj_pos).

(** Lines 23-25. *)
Definition flipped (this : VertexObject num tag) : VertexObject num tag := this.

(** Lines 27-34: the tag returned, the vertex and the state of the tag
    source after the call. *)
Definition getTag (this : VertexObject num tag) (w : world)
    : tag * VertexObject num tag * world :=
  let generate :=
    let '(result, w) := window_getTag w in
    (result, mkVertexObject (vo_pos this) (Some result), w) in
  match vo_tag this with
  | Some result => if truthy result then (result, this, w) else generate
  | None => generate
  end.

(** Lines 39-42. *)
Definition interpolate (this other : VertexObject num tag) (t : num)
    : VertexObject num tag :=
  Vertex_new (Vector_lerp (vo_pos this) (vo_pos other) t).

(** The vertex as the converters see it. *)
Definition asVertex (this : VertexObject num tag) : Vertex num :=
  mkVertex (vo_pos this).
End VertexMethods.

(** ** Reading the export back *)

Section ReadBack.
Context {num : Type} `{Numerics num} `{MathIndex num}.

(** The vertex that the import makes of the position [w] once it has
    been through the [Float32Array] of the export. *)
Definition storedVertex (w : Vector3 num) : Vertex num :=
  mkVertex (Vector_new (Some (fround (x w))) (Some (fround (y w)))
                       (Some (fround (z w)))).

(** The corner without its colour. *)
Definition uncoloured (c : Corner num) : Corner num :=
  mkCorner (c_face c) (c_idx c) (c_vertex c) (c_normal c)
           (mkColor num_0 num_0 num_0).
End ReadBack.

(** ** A numeric environment for the worked examples *)

(** Numbers are exact rationals, or NaN. [toFixed] follows ECMAScript
    (Number.prototype.toFixed, for magnitudes below 10^21): the sign is
    split off, the magnitude times [10^digits] is rounded to the nearest
    integer, the larger one on a tie, and the digits are printed with the
    point [digits] places from the right. *)
Module ExactNumbers.
Local Open Scope Q_scope.

Inductive jsnum := Num (q : Q) | NaN.

Definition lift1 (f : Q -> Q) (a : jsnum) : jsnum :=
  match a with Num p => Num (Qred (f p)) | NaN => NaN end.

Definition lift2 (f : Q -> Q -> Q) (a c : jsnum) : jsnum :=
  match a, c with Num p, Num q => Num (Qred (f p q)) | _, _ => NaN end.

Definition pad_zeros (width : nat) (s : string) : string :=
  String.concat "" (replicate (width - String.length s) "0") +:+ s.

Definition Q_toFixed (q : Q) (digits : nat) : string :=
  let n := Qfloor (Qabs q * inject_Z (10 ^ Z.of_nat digits) + (1 # 2)) in
  let m := pad_zeros (S digits) (NilZero.string_of_uint (N.to_uint (Z.to_N n))) in
  let k := (String.length m - digits)%nat in
  (if Qlt_le_dec q 0 then "-" else "") +:+
  String.substring 0 k m +:+
  (if digits is O then "" else "." +:+ String.substring k digits m).

Definition js_toFixed (a : jsnum) (digits : nat) : string :=
  match a with Num q => Q_toFixed q digits | NaN => "NaN" end.

(** [a <= b]; false when either side is NaN. *)
Definition js_le (a c : jsnum) : bool :=
  match a, c with
  | Num p, Num q => if Qlt_le_dec q p then false else true
  | _, _ => false
  end.

(** [a === 0] *)
Definition js_is_zero (a : jsnum) : bool :=
  match a with Num p => Qeq_bool p 0 | NaN => false end.

(** Square root to 15 decimal places, exact on the squares of such
    decimals; NaN below zero. *)
Definition js_sqrt (a : jsnum) : jsnum :=
  match a with
  | Num q =>
      if Qlt_le_dec q 0 then NaN
      else Num (Qred (Z.sqrt (Qfloor (q * inject_Z (10 ^ 30))) # 10 ^ 15))
  | NaN => NaN
  end.

(** The doubles nearest to pi/2 and to 40*pi/180. *)
Definition half_pi : Q := 15707963267948966 # 10 ^ 16.
Definition forty_degrees : jsnum := Num (Qred (6981317007977318 # 10 ^ 16)).

(** [Math.acos(MathUtils.clamp(t, -1, 1))]: exact at -1, 0 and 1, the
    arguments the examples reach, and interpolated linearly between
    them. *)
Definition js_acos_clamped (a : jsnum) : jsnum :=
  lift1 (fun t =>
           let t := if Qlt_le_dec t (-1) then -1
                    else if Qlt_le_dec 1 t then 1 else t in
           half_pi * (1 - t)) a.

Definition dot (a c : Vector3 jsnum) : jsnum :=
  lift2 Qplus (lift2 Qplus (lift2 Qmult (x a) (x c)) (lift2 Qmult (y a) (y c)))
        (lift2 Qmult (z a) (z c)).

(** [Vector3.add] *)
Definition add (a c : Vector3 jsnum) : Vector3 jsnum :=
  mkVector3 (lift2 Qplus (x a) (x c)) (lift2 Qplus (y a) (y c))
            (lift2 Qplus (z a) (z c)).

(** [a / d]; the examples never divide by zero, which is given NaN. *)
Definition js_div (a d : jsnum) : jsnum :=
  if js_is_zero d then NaN else lift2 Qdiv a d.

Definition divideScalar (a : Vector3 jsnum) (d : jsnum) : Vector3 jsnum :=
  mkVector3 (js_div (x a) d) (js_div (y a) d) (js_div (z a) d).

(** [Vector3.normalize]: [divideScalar(length() || 1)]; zero and NaN
    are falsy. *)
Definition normalize (a : Vector3 jsnum) : Vector3 jsnum :=
  let l := js_sqrt (dot a a) in
  divideScalar a (match l with
                  | Num q => if Qeq_bool q 0 then Num 1 else l
                  | NaN => Num 1
                  end).

(** [Vector3.angleTo] *)
Definition angleTo (a c : Vector3 jsnum) : jsnum :=
  let denominator := js_sqrt (lift2 Qmult (dot a a) (dot c c)) in
  if js_is_zero denominator then Num (Qred half_pi)
  else js_acos_clamped (js_div (dot a c) denominator).

(** The examples only store numbers that a [Float32Array] holds
    exactly. *)
#[export] Instance numerics : Numerics jsnum :=
  {| toFixed := js_toFixed;
     num_le := js_le;
     num_0 := Num 0;
     num_1 := Num 1;
     defaultSmoothingAngle := forty_degrees;
     V3_add := add;
     V3_normalize := normalize;
     V3_angleTo := angleTo;
     fround := fun a => a |}.

Definition vec (a c d : Z) : Vector3 jsnum :=
  mkVector3 (Num (inject_Z a)) (Num (inject_Z c)) (Num (inject_Z d)).

Definition vertex (a c d : Z) : Vertex jsnum := mkVertex (vec a c d).

Definition minus (a c : Vector3 jsnum) : Vector3 jsnum :=
  mkVector3 (lift2 Qminus (x a) (x c)) (lift2 Qminus (y a) (y c))
            (lift2 Qminus (z a) (z c)).

Definition cross (a c : Vector3 jsnum) : Vector3 jsnum :=
  mkVector3 (lift2 Qminus (lift2 Qmult (y a) (z c)) (lift2 Qmult (z a) (y c)))
            (lift2 Qminus (lift2 Qmult (z a) (x c)) (lift2 Qmult (x a) (z c)))
            (lift2 Qminus (lift2 Qmult (x a) (y c)) (lift2 Qmult (y a) (x c))).

(** The unit normal of the plane through the first three vertices. *)
Definition planeNormal (vertices : list (Vertex jsnum)) : Vector3 jsnum :=
  match vertices with
  | a :: c :: d :: _ =>
      let n := cross (minus (pos c) (pos a)) (minus (pos d) (pos a)) in
      divideScalar n (js_sqrt (dot n n))
  | _ => mkVector3 NaN NaN NaN
  end.

(** An [undefined] coordinate makes a NaN; a [Polygon] keeps its
    vertices, takes the normal of their plane and has no colour of its
    own. *)
#[export] Instance mathIndex : MathIndex jsnum :=
  {| Vector_new := fun a c d =>
       mkVector3 (default NaN a) (default NaN c) (default NaN d);
     Polygon_new := fun vertices => mkPolygon vertices (planeNormal vertices) None |}.

(** A receiver with the one method that line 160 itself calls on it;
    what the call returns does not matter here. *)
#[export] Instance coreCSG : CoreCSG jsnum (CSG jsnum) :=
  {| setColor := setColor_all;
     method := fun name =>
       if String.eqb name "setColor"
       then Some (fun receiver _ => Returns receiver)
       else None |}.

(** The unit square in the plane [z = 0], as two triangles that share
    the diagonal from (0,0,0) to (1,1,0). *)
Definition unit_square : CSG jsnum :=
  mkCSG [ mkPolygon [vertex 0 0 0; vertex 1 0 0; vertex 1 1 0] (vec 0 0 1) None;
          mkPolygon [vertex 0 0 0; vertex 1 1 0; vertex 0 1 0] (vec 0 0 1) None ]
        false false.
(** The same square as one polygon of four vertices. *)
Definition quad : Polygon jsnum :=
  mkPolygon [vertex 0 0 0; vertex 1 0 0; vertex 1 1 0; vertex 0 1 0]
            (vec 0 0 1) None.

Definition unit_quad : CSG jsnum := mkCSG [quad] false false.

Definition red : SharedColor jsnum :=
  mkSharedColor (Num 1) (Num 0) (Num 0) (Some (Num 1)).

(** The unit square again, the first triangle red and the second without
    a colour. *)
Definition red_triangle : Polygon jsnum :=
  mkPolygon [vertex 0 0 0; vertex 1 0 0; vertex 1 1 0] (vec 0 0 1) (Some red).

Definition plain_triangle : Polygon jsnum :=
  mkPolygon [vertex 0 0 0; vertex 1 1 0; vertex 0 1 0] (vec 0 0 1) None.

Definition two_tone_square : CSG jsnum :=
  mkCSG [red_triangle; plain_triangle] false false.

Definition white : Color jsnum := mkColor (Num 1) (Num 1) (Num 1).

(** The corners of the two triangles of [unit_square] at the origin. *)
Definition origin_corner (face : nat) : Corner jsnum :=
  mkCorner face 0 (vec 0 0 0) (vec 0 0 1) white.

(** An index of four entries over three positions. *)
Definition four_indices : BufferGeometry jsnum :=
  mkBufferGeometry (Some [0; 1; 2; 0]%nat)
    (Num <$> [0; 0; 0; 1; 0; 0; 1; 1; 0]) None None.

(** Half-transparent green. *)
Definition green_glass : DispatchColor jsnum :=
  mkDispatchColor (Num 0) (Num 1) (Num 0) (Some (Num (1 # 2))).
(** A tag source that counts up from the state it is given; 0 is falsy
    like every JavaScript number zero. *)
#[export] Instance counter : TagSource nat nat :=
  {| truthy := fun t => negb (Nat.eqb t 0);
     window_getTag := fun w => (w, S w) |}.

(** Three positions and an index of one triangle. *)
Definition one_triangle : BufferGeometry jsnum :=
  mkBufferGeometry (Some [0; 1; 2]%nat)
    (Num <$> [0; 0; 0; 1; 0; 0; 1; 1; 0]) None None.

(** Nine floats without an index. *)
Definition triangle_soup : BufferGeometry jsnum :=
  mkBufferGeometry None (Num <$> [0; 0; 0; 1; 0; 0; 1; 1; 0]) None None.

(** The two-tone square with a half-transparent red. *)
Definition faint_red : SharedColor jsnum :=
  mkSharedColor (Num 1) (Num 0) (Num 0) (Some (Num (1 # 2))).

Definition faint_square : CSG jsnum :=
  mkCSG [ mkPolygon [vertex 0 0 0; vertex 1 0 0; vertex 1 1 0] (vec 0 0 1)
                    (Some faint_red);
          plain_triangle ]
        false false.

(** The unit square with a polygon of two vertices after it. *)
Definition square_and_sliver : CSG jsnum :=
  mkCSG (polygons unit_square ++
         [mkPolygon [vertex 0 0 0; vertex 1 0 0] (vec 0 0 1) (Some red)])
        false false.

(** An index whose last entry points past the three positions. *)
Definition stray_index : BufferGeometry jsnum :=
  mkBufferGeometry (Some [0; 1; 7]%nat)
    (Num <$> [0; 0; 0; 1; 0; 0; 1; 1; 0]) None None.

(** Two normals at a right angle, and the same normal twice. *)
Definition right_angle : list (Vector3 jsnum) := [vec 0 0 1; vec 1 0 0].
Definition same_twice : list (Vector3 jsnum) := [vec 0 0 1; vec 0 0 1].

(** A vertex at the origin that has no tag yet. *)
Definition untagged : VertexObject jsnum nat := Vertex_new (vec 0 0 0).
End ExactNumbers.

Set Warnings "-clear-no-such-hyp".

(** * Properties of the export *)

(** ** The vertex map is the list of buckets *)

Section Buckets.
Context {num : Type} `{Numerics num}.
Implicit Types (cs : list (Corner num)) (c : Corner num) (k h : string)
               (vm : VertexMap num) (ks : list string).

Lemma first_occurrences_elem_of ks k :
  k ∈ first_occurrences ks ↔ k ∈ ks.
Proof.
  induction ks as [|a ks IH]; simpl; [done|].
  rewrite !elem_of_cons, list_elem_of_filter, IH.
  destruct (decide (k = a)); naive_solver.
Qed.

Lemma first_occurrences_NoDup ks : NoDup (first_occurrences ks).
Proof.
  induction ks as [|a ks IH]; simpl; [constructor|].
  constructor; [|by apply NoDup_filter].
  rewrite list_elem_of_filter. naive_solver.
Qed.

Lemma first_occurrences_snoc ks k :
  first_occurrences (ks ++ [k]) =
  if decide (k ∈ ks) then first_occurrences ks else first_occurrences ks ++ [k].
Proof.
  induction ks as [|a ks IH]; simpl; [done|].
  rewrite IH. destruct (decide (k ∈ ks)) as [Hin|Hin].
  - rewrite decide_True; [done|by right].
  - rewrite filter_app. destruct (decide (k = a)) as [->|Hne].
    + rewrite decide_True by left.
      rewrite filter_cons_False by naive_solver.
      by rewrite filter_nil, app_nil_r.
    + rewrite decide_False by (rewrite elem_of_cons; naive_solver).
      by rewrite filter_cons_True.
Qed.

Lemma vm_lookup_fmap (f : string → VertexEntry num) ks h :
  vm_lookup h ((λ k, (k, f k)) <$> ks) =
  if decide (h ∈ ks) then Some (f h) else None.
Proof.
  induction ks as [|a ks IH]; [done|].
  rewrite fmap_cons. cbn [vm_lookup].
  destruct (String.eqb_spec a h) as [->|Hne].
  - rewrite decide_True; [done|left].
  - rewrite IH. destruct (decide (h ∈ ks)).
    + rewrite decide_True; [done|by right].
    + rewrite decide_False; [done|]. rewrite elem_of_cons. naive_solver.
Qed.

Lemma vm_alter_fmap (g : VertexEntry num → VertexEntry num)
    (f : string → VertexEntry num) ks h :
  NoDup ks →
  vm_alter g h ((λ k, (k, f k)) <$> ks) =
  (λ k, (k, if decide (k = h) then g (f k) else f k)) <$> ks.
Proof.
  induction 1 as [|a ks Hnotin Hnd IH]; [done|].
  rewrite !fmap_cons. cbn [vm_alter].
  destruct (String.eqb_spec a h) as [->|Hne].
  - rewrite decide_True by done. f_equal.
    apply list_fmap_ext. intros i k Hk.
    rewrite decide_False; [done|]. intros ->.
    apply Hnotin. by eapply list_elem_of_lookup_2.
  - rewrite decide_False by done. by rewrite IH.
Qed.

Lemma bucketOf_snoc cs c k :
  bucketOf (cs ++ [c]) k =
  bucketOf cs k ++ (if decide (c_key c = k) then [c] else []).
Proof.
  unfold bucketOf. rewrite filter_app, filter_cons, filter_nil.
  by destruct (decide _).
Qed.

Lemma bucketOf_nil cs k : k ∉ c_key <$> cs → bucketOf cs k = [].
Proof.
  intros Hk. unfold bucketOf.
  induction cs as [|c cs IH]; [done|].
  rewrite fmap_cons, not_elem_of_cons in Hk. destruct Hk as [? ?].
  rewrite filter_cons_False by done. auto.
Qed.

Lemma bucketOf_nonempty cs k : k ∈ c_key <$> cs → bucketOf cs k ≠ [].
Proof.
  intros (c & -> & Hc)%list_elem_of_fmap Hnil.
  assert (c ∈ bucketOf cs (c_key c)) as Hin
    by (by apply list_elem_of_filter).
  rewrite Hnil in Hin. by apply elem_of_nil in Hin.
Qed.

Lemma entryOf_snoc (l : list (Corner num)) c :
  l ≠ [] →
  entryOf (l ++ [c]) =
  entry_push (c_normal c) (c_colour c) (c_face c) (c_idx c) (entryOf l).
Proof.
  intros Hl. destruct l as [|c0 l]; [done|].
  unfold entryOf, entry_push; simpl. by rewrite !fmap_app.
Qed.

(** Inserting a corner extends the buckets by that corner. *)
Lemma buckets_snoc cs c : buckets (cs ++ [c]) = insertCorner (buckets cs) c.
Proof.
  unfold insertCorner, addCorner, buckets.
  fold (c_key c).
  rewrite vm_lookup_fmap, fmap_app.
  change (c_key <$> [c]) with [c_key c].
  rewrite first_occurrences_snoc.
  destruct (decide (c_key c ∈ c_key <$> cs)) as [Hin|Hnotin].
  - rewrite decide_True by by apply first_occurrences_elem_of.
    rewrite vm_alter_fmap by apply first_occurrences_NoDup.
    apply list_fmap_ext. intros i k Hk. f_equal.
    rewrite bucketOf_snoc. destruct (decide (k = c_key c)) as [->|Hne].
    + rewrite decide_True by done.
      by apply entryOf_snoc, bucketOf_nonempty.
    + rewrite decide_False by done. by rewrite app_nil_r.
  - rewrite decide_False by by rewrite first_occurrences_elem_of.
    rewrite fmap_app. f_equal.
    + apply list_fmap_ext. intros i k Hk. f_equal.
      rewrite bucketOf_snoc, decide_False, app_nil_r; [done|].
      intros <-. apply Hnotin, first_occurrences_elem_of.
      by eapply list_elem_of_lookup_2.
    + simpl. rewrite bucketOf_snoc, decide_True by done.
      by rewrite bucketOf_nil.
Qed.

Lemma foldl_insertCorner cs0 cs :
  foldl insertCorner (buckets cs0) cs = buckets (cs0 ++ cs).
Proof.
  revert cs0. induction cs as [|c cs IH]; intros cs0; simpl.
  - by rewrite app_nil_r.
  - rewrite <- buckets_snoc, IH. by rewrite <- app_assoc.
Qed.
End Buckets.

(** ** Lines 48-78 insert the corners of the mesh one after the other *)

Section Build.
Context {num : Type} `{Numerics num}.
Implicit Types (p polygon : Polygon num) (ps : list (Polygon num))
               (vm : VertexMap num) (faces : list Face) (st : BuildState num).

Lemma addFace_corners p vm faces x :
  addFace p (plane_normal p) (polygonColor p) (vm, faces) x =
  (foldl insertCorner vm (faceCorners p (length faces) x),
   faces ++ [[0; 0; 0]]).
Proof.
  unfold addFace, faceCorners. f_equal.
  change (imap pair [0; x + 1; x + 2]) with [(0, 0); (1, x + 1); (2, x + 2)].
  cbn [foldl omap list_omap].
  destruct (vertices p !! 0), (vertices p !! (x + 1)),
    (vertices p !! (x + 2)); reflexivity.
Qed.

Lemma foldl_addFace p vm faces m :
  foldl (addFace p (plane_normal p) (polygonColor p)) (vm, faces) (seq 0 m) =
  (foldl insertCorner vm
     (seq 0 m ≫= fun x => faceCorners p (length faces + x) x),
   faces ++ replicate m [0; 0; 0]).
Proof.
  induction m as [|m IH].
  - simpl. by rewrite app_nil_r.
  - rewrite seq_S, foldl_app, IH. cbn [foldl plus].
    rewrite addFace_corners, length_app, length_replicate.
    rewrite bind_app, foldl_app. cbn [mbind list_bind].
    rewrite app_nil_r, replicate_S_end. by rewrite app_assoc.
Qed.

Lemma addPolygon_corners st p :
  addPolygon st p =
  mkBuildState
    (foldl insertCorner (bs_vertexMap st)
       (polygonCorners p (length (bs_faces st))))
    (bs_faces st ++ replicate (length (vertices p) - 2) [0; 0; 0])
    (declaresColor p || bs_colorsUsed st).
Proof.
  unfold addPolygon, polygonCorners, declaresColor.
  rewrite foldl_addFace. by destruct (shared_color p).
Qed.

Lemma foldl_addPolygon st ps :
  foldl addPolygon st ps =
  mkBuildState
    (foldl insertCorner (bs_vertexMap st)
       (cornersFrom (length (bs_faces st)) ps))
    (bs_faces st ++ replicate (faceCount ps) [0; 0; 0])
    (bs_colorsUsed st || existsb declaresColor ps).
Proof.
  revert st. induction ps as [|p ps IH]; intros st.
  - destruct st; simpl. by rewrite app_nil_r, orb_false_r.
  - cbn [foldl]. rewrite IH, addPolygon_corners.
    cbn [bs_vertexMap bs_faces bs_colorsUsed cornersFrom existsb].
    rewrite foldl_app, length_app, length_replicate.
    unfold faceCount. rewrite fmap_cons. cbn [sum_list sum_list_with].
    rewrite replicate_add, app_assoc. f_equal.
    rewrite orb_assoc. f_equal. apply orb_comm.
Qed.

(** The state after the loop over the polygons. *)
Lemma buildVertexMap_buckets ps :
  buildVertexMap ps =
  mkBuildState (buckets (corners ps))
               (replicate (faceCount ps) [0; 0; 0])
               (existsb declaresColor ps).
Proof.
  unfold buildVertexMap. rewrite foldl_addPolygon. cbn.
  f_equal. apply (foldl_insertCorner []).
Qed.
End Build.

(** ** General facts on lists *)

Lemma filter_ext_elem {A} (P Q : A → Prop) `{!∀ a, Decision (P a)}
    `{!∀ a, Decision (Q a)} (l : list A) :
  (∀ a, a ∈ l → P a ↔ Q a) → filter P l = filter Q l.
Proof.
  induction l as [|a l IH]; intros HPQ; [done|].
  rewrite !filter_cons.
  rewrite IH by (intros; apply HPQ; by right).
  destruct (decide (P a)) as [HP|HP], (decide (Q a)) as [HQ|HQ];
    try done; exfalso; apply HPQ in HP || apply HPQ in HQ; done || by left.
Qed.

Lemma filter_all {A} (P : A → Prop) `{!∀ a, Decision (P a)} (l : list A) :
  (∀ a, a ∈ l → P a) → filter P l = l.
Proof.
  induction l as [|a l IH]; intros HP; [done|].
  rewrite filter_cons_True by (apply HP; left).
  rewrite IH; [done|]. intros; apply HP; by right.
Qed.

Lemma foldl_ext {A B} (f g : A → B → A) (a : A) (l : list B) :
  (∀ a b, f a b = g a b) → foldl f a l = foldl g a l.
Proof.
  intros Hfg. revert a. induction l as [|b l IH]; intros a; [done|].
  cbn [foldl]. by rewrite Hfg, IH.
Qed.

Lemma foldl_omap {A B C} (f : B → option C) (g : A → C → A) (a : A)
    (l : list B) :
  foldl (fun a b => match f b with Some c => g a c | None => a end) a l =
  foldl g a (omap f l).
Proof.
  revert a. induction l as [|b l IH]; intros a; [done|].
  cbn [foldl omap list_omap]. rewrite IH. by destruct (f b).
Qed.

Lemma foldl_bind {A B C} (f : B → list C) (g : A → C → A) (a : A)
    (l : list B) :
  foldl (fun a b => foldl g a (f b)) a l = foldl g a (l ≫= f).
Proof.
  revert a. induction l as [|b l IH]; intros a; [done|].
  cbn [foldl mbind list_bind]. by rewrite foldl_app, IH.
Qed.

(** ** The grouping loop computes the groups of the specification *)

Section Grouping.
Context {num : Type} `{Numerics num}.
Variable smoothingAngle : num.
Variable normals : list (Vector3 num).
Implicit Types (u : list bool) (g : list nat) (G : list (list nat)).



Lemma scanStep_joins i u g j :
  scanStep smoothingAngle normals i (u, g) j =
  if decide (joins smoothingAngle normals i u j) then (<[j := false]> u, g ++ [j]) else (u, g).
Proof.
  unfold scanStep. destruct (decide (joins smoothingAngle normals i u j)) as [[Hu Hc]|Hn].
  - rewrite Hu. unfold within in Hc.
    destruct (normals !! i), (normals !! j); try done. by rewrite Hc.
  - unfold joins, within in Hn.
    destruct (u !! j) as [[]|]; try done.
    destruct (normals !! i), (normals !! j); try done.
    destruct (num_le _ _); naive_solver.
Qed.

Lemma scan_loop i js : ∀ u g,
  NoDup js →
  ∃ u', foldl (scanStep smoothingAngle normals i) (u, g) js =
        (u', g ++ filter (joins smoothingAngle normals i u) js) ∧
        length u' = length u ∧
        ∀ j, u' !! j = if decide (j ∈ filter (joins smoothingAngle normals i u) js)
                       then Some false else u !! j.
Proof.
  induction js as [|j js IH]; intros u g Hnd.
  - exists u. rewrite app_nil_r. split_and!; [done..|].
    intros j. rewrite decide_False; [done|]. apply not_elem_of_nil.
  - apply NoDup_cons in Hnd as [Hj Hnd].
    cbn [foldl]. rewrite scanStep_joins.
    destruct (decide (joins smoothingAngle normals i u j)) as [Hjoin|Hjoin].
    + destruct (IH (<[j := false]> u) (g ++ [j]) Hnd) as (u' & -> & Hlen & Hu').
      assert (filter (joins smoothingAngle normals i (<[j := false]> u)) js = filter (joins smoothingAngle normals i u) js)
        as Hfilter.
      { apply filter_ext_elem. intros j' Hj'. unfold joins.
        rewrite list_lookup_insert_ne; [done|]. by intros ->. }
      rewrite Hfilter in *. exists u'.
      rewrite filter_cons_True by done. split_and!.
      * by rewrite <- app_assoc.
      * by rewrite Hlen, length_insert.
      * intros j'. rewrite Hu'. destruct (decide (j' = j)) as [->|Hne].
        -- rewrite decide_False by (rewrite list_elem_of_filter; naive_solver).
           rewrite decide_True by left.
           apply list_lookup_insert_eq. destruct Hjoin as [Hjoin _].
           by apply lookup_lt_Some in Hjoin.
        -- rewrite list_lookup_insert_ne by done.
           destruct (decide (j' ∈ filter (joins smoothingAngle normals i u) js)).
           ++ rewrite decide_True; [done|by right].
           ++ rewrite decide_False; [done|].
              rewrite elem_of_cons. naive_solver.
    + destruct (IH u g Hnd) as (u' & -> & Hlen & Hu').
      exists u'. by rewrite filter_cons_False.
Qed.

Lemma remaining_cons u i :
  i < length normals →
  remaining normals u i =
  (if decide (u !! i = Some true) then [i] else []) ++ remaining normals u (S i).
Proof.
  intros Hi. unfold remaining.
  replace (length normals - i) with (S (length normals - S i)) by lia.
  cbn [seq]. rewrite filter_cons. by destruct (decide _).
Qed.

Lemma groupStep_seed i u G :
  i < length normals → length u = length normals → u !! i = Some true →
  ∃ u', groupStep smoothingAngle normals (u, G) i =
        (u', G ++ [i :: filter (fun j => within smoothingAngle normals i j = true) (remaining normals u (S i))]) ∧
        length u' = length normals ∧
        remaining normals u' (S i) =
        filter (fun j => within smoothingAngle normals i j ≠ true) (remaining normals u (S i)).
Proof.
  intros Hi Hlen Hui. unfold groupStep. rewrite Hui.
  destruct (scan_loop i (seq i (length normals - i)) (<[i := false]> u) [i])
    as (u' & -> & Hlen' & Hu'); [apply NoDup_seq|].
  assert (filter (joins smoothingAngle normals i (<[i := false]> u)) (seq i (length normals - i)) =
          filter (fun j => within smoothingAngle normals i j = true) (remaining normals u (S i))) as Hyes.
  { replace (length normals - i) with (S (length normals - S i)) by lia.
    cbn [seq]. rewrite filter_cons_False.
    2:{ unfold joins. rewrite list_lookup_insert_eq by lia. naive_solver. }
    unfold remaining. rewrite list_filter_filter.
    apply filter_ext_elem. intros j [Hj _]%elem_of_seq. unfold joins.
    rewrite list_lookup_insert_ne by lia. naive_solver. }
  rewrite Hyes in *. exists u'. split_and!.
  - done.
  - by rewrite Hlen', length_insert.
  - unfold remaining at 1. fold (remaining normals u (S i)).
    unfold remaining. rewrite list_filter_filter.
    apply filter_ext_elem. intros j [Hj Hj']%elem_of_seq.
    rewrite Hu', list_lookup_insert_ne by lia.
    fold (remaining normals u (S i)).
    destruct (decide (j ∈ filter _ (remaining normals u (S i)))) as [Hin|Hin].
    + apply list_elem_of_filter in Hin. naive_solver.
    + rewrite list_elem_of_filter in Hin. unfold remaining in Hin.
      rewrite list_elem_of_filter, elem_of_seq in Hin.
      split; [|naive_solver lia]. intros Hu. split; [|done].
      intros Hc. apply Hin. split_and!; [done..|lia].
Qed.

Lemma group_loop m : ∀ i u G rounds,
  i + m = length normals → length u = length normals →
  length (remaining normals u i) ≤ rounds →
  snd (foldl (groupStep smoothingAngle normals) (u, G) (seq i m)) =
  G ++ greedyGroups rounds (within smoothingAngle normals) (remaining normals u i).
Proof.
  induction m as [|m IH]; intros i u G rounds Him Hlen Hrounds.
  - unfold remaining. replace (length normals - i) with 0 by lia.
    cbn. destruct rounds; by rewrite app_nil_r.
  - cbn [seq foldl]. rewrite remaining_cons in Hrounds |- * by lia.
    destruct (decide (u !! i = Some true)) as [Hui|Hui].
    + destruct (groupStep_seed i u G) as (u' & -> & Hlen' & Hrem);
        [lia|done..|].
      destruct rounds as [|rounds]; [simpl in Hrounds; lia|].
      cbn [app greedyGroups].
      rewrite (IH (S i) u' _ rounds); [|lia|done|].
      * rewrite Hrem. by rewrite <- app_assoc.
      * rewrite Hrem. etrans; [apply length_filter|].
        simpl in Hrounds. lia.
    + assert (groupStep smoothingAngle normals (u, G) i = (u, G)) as ->.
      { unfold groupStep.
        destruct (u !! i) as [[]|] eqn:E; [by destruct Hui|done..]. }
      apply IH; [lia|done..].
Qed.

Lemma remaining_all :
  remaining normals (const true <$> normals) 0 = seq 0 (length normals).
Proof.
  unfold remaining. rewrite Nat.sub_0_r. apply filter_all.
  intros j [_ Hj]%elem_of_seq. rewrite list_lookup_fmap.
  destruct (lookup_lt_is_Some_2 normals j) as [v ->]; [lia|done].
Qed.

(** Lines 84-105 compute the greedy groups of section 4.2, step 3. *)
Lemma groupNormals_greedy :
  groupNormals smoothingAngle normals = smoothingGroups smoothingAngle normals.
Proof.
  unfold groupNormals, smoothingGroups.
  rewrite (group_loop _ 0 _ [] (length normals)).
  - by rewrite remaining_all.
  - lia.
  - by rewrite length_fmap.
  - rewrite remaining_all, length_seq. lia.
Qed.
End Grouping.

(** ** Every instance is in exactly one group *)

Lemma greedyGroups_partition (close : nat → nat → bool) rounds :
  ∀ l, length l ≤ rounds → mjoin (greedyGroups rounds close l) ≡ₚ l.
Proof.
  induction rounds as [|rounds IH]; intros [|i l] Hlen; simpl in *;
    try done; try lia.
  rewrite IH.
  - by rewrite (filter_app_complement (fun j => close i j = true) l).
  - etrans; [apply length_filter|]. lia.
Qed.

Section GroupsPartition.
Context {num : Type} `{Numerics num}.

Lemma groupNormals_partition (smoothingAngle : num) normals :
  mjoin (groupNormals smoothingAngle normals) ≡ₚ seq 0 (length normals).
Proof.
  rewrite groupNormals_greedy. apply greedyGroups_partition.
  by rewrite length_seq.
Qed.

Lemma groupNormals_elem (smoothingAngle : num) normals j :
  j < length normals →
  ∃ group, group ∈ groupNormals smoothingAngle normals ∧ j ∈ group.
Proof.
  intros Hj.
  assert (j ∈ mjoin (groupNormals smoothingAngle normals)) as Hin.
  { rewrite groupNormals_partition. apply elem_of_seq. lia. }
  apply list_elem_of_join in Hin as (group & ? & ?). eauto.
Qed.
End GroupsPartition.

(** ** The store of face arrays *)

Lemma read_write_eq (faces : list Face) face idx v (a : Face) :
  faces !! face = Some a → idx < length a →
  read_slot (write_slot faces face idx v) face idx = Some v.
Proof.
  intros Ha Hidx. unfold read_slot, write_slot.
  rewrite list_lookup_alter_eq, Ha. simpl.
  by apply list_lookup_insert_eq.
Qed.

Lemma read_write_ne (faces : list Face) face idx v face' idx' :
  (face, idx) ≠ (face', idx') →
  read_slot (write_slot faces face idx v) face' idx' = read_slot faces face' idx'.
Proof.
  intros Hne. unfold read_slot, write_slot.
  destruct (decide (face = face')) as [<-|Hf].
  - rewrite list_lookup_alter_eq. destruct (faces !! face); [simpl|done].
    apply list_lookup_insert_ne. naive_solver.
  - by rewrite list_lookup_alter_ne.
Qed.

Lemma write_slot_places (faces : list Face) face idx v :
  three_places faces → three_places (write_slot faces face idx v).
Proof.
  unfold three_places, write_slot. rewrite !Forall_lookup.
  intros Hf i a. destruct (decide (i = face)) as [->|Hne].
  - rewrite list_lookup_alter_eq.
    intros (a0 & Ha0 & ->)%fmap_Some.
    etrans; [apply length_insert|]. eauto.
  - rewrite list_lookup_alter_ne by done. eauto.
Qed.

Lemma write_slot_length (faces : list Face) face idx v :
  length (write_slot faces face idx v) = length faces.
Proof. apply length_alter. Qed.

Lemma flattenFaces_length (faces : list Face) : length (flattenFaces faces) = 3 * length faces.
Proof.
  unfold flattenFaces. induction faces as [|a faces IH]; [done|].
  cbn [mbind list_bind]. rewrite length_app, IH. simpl. lia.
Qed.

Lemma flattenFaces_lookup (faces : list Face) face idx :
  three_places faces → idx < 3 → face < length faces →
  flattenFaces faces !! (3 * face + idx) = read_slot faces face idx.
Proof.
  unfold flattenFaces, read_slot. intros Hf Hidx. revert face.
  induction Hf as [|a faces Ha Hf IH]; intros face Hface; [simpl in *; lia|].
  cbn [mbind list_bind]. destruct face as [|face].
  - rewrite lookup_app_l by (simpl; lia).
    change ((a :: faces) !! 0) with (Some a). cbn [mbind option_bind].
    rewrite (list_lookup_lookup_total_lt a idx) by lia.
    by destruct idx as [|[|[|]]]; try lia.
  - rewrite lookup_app_r by (simpl; lia).
    replace (3 * S face + idx - length [a !!! 0; a !!! 1; a !!! 2])
      with (3 * face + idx) by (simpl; lia).
    simpl in Hface. rewrite IH by lia. done.
Qed.

(** ** Lines 81-135 emit the vertices one after the other *)

Section Emission.
Context {num : Type} `{Numerics num}.
Implicit Types (c : Corner num) (E : list (Corner num)) (st : OutState num)
               (e : VertexEntry num).

Lemma emitGroup_emitted e st group :
  emitGroup e st group = foldl emitOne st (emittedGroup e group).
Proof.
  unfold emitGroup, emittedGroup. rewrite <- foldl_omap.
  apply foldl_ext. intros st' j. unfold emitMember.
  destruct (ve_colours e !! j), (ve_faces e !! j) as [[? ?]|]; done.
Qed.

Lemma emitEntry_emitted smoothingAngle st (vertexObj : string * VertexEntry num) :
  emitEntry smoothingAngle st vertexObj =
  foldl emitOne st (emittedEntry smoothingAngle vertexObj.2).
Proof.
  unfold emitEntry, emittedEntry. rewrite <- foldl_bind.
  apply foldl_ext. intros. apply emitGroup_emitted.
Qed.

Lemma foldl_emitEntry smoothingAngle st (vertexMap : VertexMap num) :
  foldl (emitEntry smoothingAngle) st vertexMap =
  foldl emitOne st (emitted smoothingAngle vertexMap).
Proof.
  unfold emitted. rewrite <- foldl_bind.
  apply foldl_ext. intros. apply emitEntry_emitted.
Qed.

(** The state after the vertices [E] were emitted into empty buffers. *)
Lemma emitted_state (faces : list Face) E :
  three_places faces →
  let st := foldl emitOne (mkOutState [] [] [] faces) E in
  os_vertices st = E ≫= (xyz ∘ c_vertex) ∧
  os_normalVecs st = E ≫= (xyz ∘ c_normal) ∧
  os_colors st = E ≫= (rgb ∘ c_colour) ∧
  length (os_vertices st) = 3 * length E ∧
  length (os_faces st) = length faces ∧
  three_places (os_faces st) ∧
  (NoDup (c_ref <$> E) →
   ∀ k c, E !! k = Some c → c_face c < length faces → c_idx c < 3 →
          read_slot (os_faces st) (c_face c) (c_idx c) = Some k).
Proof.
  intros Hf. induction E as [|c E IH] using rev_ind.
  - simpl. by split_and!.
  - cbn zeta in *. rewrite foldl_app. cbn [foldl].
    set (st := foldl emitOne _ E) in *.
    destruct IH as (Hv & Hn & Hc & Hlen & Hfl & Hfp & Hread).
    unfold emitOne at 1 2 3 4 5 6 7; cbn [os_vertices os_normalVecs os_colors os_faces].
    rewrite !bind_app, Hv, Hn, Hc. cbn [mbind list_bind]. rewrite !app_nil_r.
    split_and!; try done.
    + rewrite <- Hv, !length_app, Hlen. simpl. lia.
    + by rewrite write_slot_length.
    + by apply write_slot_places.
    + rewrite fmap_app. intros [HndE [Hnotin _]]%NoDup_app k c' Hk Hface Hidx.
      rewrite <- Hv, Hlen.
      replace (3 * length E / 3) with (length E)
        by (symmetry; rewrite Nat.mul_comm; apply Nat.div_mul; lia).
      apply lookup_snoc_Some in Hk as [[Hk HEk]|[-> ->]].
      * rewrite read_write_ne; [by apply Hread|].
        intros Heq. apply (Hnotin (c_ref c')).
        -- apply list_elem_of_fmap. exists c'. split; [done|].
           by eapply list_elem_of_lookup_2.
        -- apply list_elem_of_fmap. exists c. split; [by symmetry|left].
      * destruct (lookup_lt_is_Some_2 (os_faces st) (c_face c')) as [a Ha];
          [lia|].
        eapply read_write_eq; [done|].
        unfold three_places in Hfp. rewrite Forall_lookup in Hfp.
        by rewrite (Hfp _ _ Ha).
Qed.
End Emission.

(** ** The corners of a mesh *)

Lemma fmap_bind_list {A B C} (f : B → C) (g : A → list B) (l : list A) :
  f <$> (l ≫= g) = l ≫= fun a => f <$> g a.
Proof.
  induction l as [|a l IH]; [done|].
  cbn [mbind list_bind]. by rewrite fmap_app, IH.
Qed.

Lemma omap_lookup_seq {A B} (f : A → B) (l : list A) :
  omap (fun j => f <$> l !! j) (seq 0 (length l)) = f <$> l.
Proof.
  induction l as [|a l IH] using rev_ind; [done|].
  rewrite length_app, Nat.add_1_r, seq_S, omap_app, fmap_app. f_equal.
  - rewrite <- IH. apply list_omap_ext, Forall2_same_length_lookup.
    split; [done|]. intros i j j' Hj Hj'. assert (j = j') as <- by congruence.
    apply lookup_seq in Hj as [-> Hj]. by rewrite lookup_app_l by lia.
  - cbn [omap list_omap]. rewrite lookup_app_r by lia.
    by rewrite Nat.sub_diag.
Qed.

Lemma faceRefs_bind_NoDup first n : NoDup (seq first n ≫= faceRefs).
Proof.
  apply NoDup_bind; [| |apply NoDup_seq].
  - unfold faceRefs. intros f1 f2 ref _ _ Hf1 Hf2.
    rewrite !elem_of_cons, elem_of_nil in Hf1, Hf2. naive_solver.
  - intros f _. unfold faceRefs.
    repeat (constructor; [rewrite ?elem_of_cons, ?elem_of_nil; naive_solver|]).
    constructor.
Qed.

Lemma faceRefs_bind_elem first n face idx :
  (face, idx) ∈ seq first n ≫= faceRefs ↔
  (first ≤ face < first + n) ∧ idx < 3.
Proof.
  rewrite list_elem_of_bind. unfold faceRefs. split.
  - intros (f & Hin & Hf%elem_of_seq).
    rewrite !elem_of_cons, elem_of_nil in Hin. naive_solver lia.
  - intros [Hf Hidx]. exists face. split; [|by apply elem_of_seq].
    rewrite !elem_of_cons.
    destruct idx as [|[|[|]]]; try lia; naive_solver.
Qed.

Lemma faceRefs_bind_length first n : length (seq first n ≫= faceRefs) = 3 * n.
Proof.
  revert first. induction n as [|n IH]; intros first; [done|].
  cbn [seq mbind list_bind]. rewrite length_app, IH. simpl. lia.
Qed.

Section CornersFacts.
Context {num : Type} `{Numerics num}.
Implicit Types (p polygon : Polygon num) (ps : list (Polygon num))
               (c : Corner num) (cs : list (Corner num)).

Lemma faceCorners_full p face x :
  x + 2 < length (vertices p) →
  ∃ v0 v1 v2,
    vertices p !! 0 = Some v0 ∧ vertices p !! (x + 1) = Some v1 ∧
    vertices p !! (x + 2) = Some v2 ∧
    faceCorners p face x =
    [mkCorner face 0 (pos v0) (plane_normal p) (polygonColor p);
     mkCorner face 1 (pos v1) (plane_normal p) (polygonColor p);
     mkCorner face 2 (pos v2) (plane_normal p) (polygonColor p)].
Proof.
  intros Hx.
  destruct (lookup_lt_is_Some_2 (vertices p) 0) as [v0 H0]; [lia|].
  destruct (lookup_lt_is_Some_2 (vertices p) (x + 1)) as [v1 H1]; [lia|].
  destruct (lookup_lt_is_Some_2 (vertices p) (x + 2)) as [v2 H2]; [lia|].
  exists v0, v1, v2. split_and!; try done.
  unfold faceCorners.
  change (imap pair [0; x + 1; x + 2]) with [(0, 0); (1, x + 1); (2, x + 2)].
  cbn [omap list_omap]. by rewrite H0, H1, H2.
Qed.

Lemma polygonCorners_refs p face0 :
  c_ref <$> polygonCorners p face0 =
  seq face0 (length (vertices p) - 2) ≫= faceRefs.
Proof.
  unfold polygonCorners. rewrite fmap_bind_list.
  replace (seq face0 (length (vertices p) - 2))
    with (Nat.add face0 <$> seq 0 (length (vertices p) - 2))
    by (by rewrite fmap_add_seq, Nat.add_0_r).
  rewrite list_fmap_bind.
  apply Forall_bind_ext, Forall_forall. intros x [_ Hx]%elem_of_seq.
  destruct (faceCorners_full p (face0 + x) x) as (? & ? & ? & _ & _ & _ & ->);
    [lia|done].
Qed.

Lemma cornersFrom_refs face0 ps :
  c_ref <$> cornersFrom face0 ps = seq face0 (faceCount ps) ≫= faceRefs.
Proof.
  revert face0. induction ps as [|p ps IH]; intros face0; [done|].
  cbn [cornersFrom]. unfold faceCount. rewrite fmap_cons.
  cbn [sum_list sum_list_with]. fold (faceCount ps).
  by rewrite fmap_app, seq_app, bind_app, IH, polygonCorners_refs.
Qed.

(** The corners fill the places of the faces in order. *)
Lemma corners_refs ps :
  c_ref <$> corners ps = seq 0 (faceCount ps) ≫= faceRefs.
Proof. apply cornersFrom_refs. Qed.

Lemma corners_length ps : length (corners ps) = 3 * faceCount ps.
Proof.
  rewrite <- (length_fmap c_ref), corners_refs. apply faceRefs_bind_length.
Qed.

Lemma cornersFrom_elem face0 ps i p x idx vertIdx v :
  ps !! i = Some p → x < length (vertices p) - 2 →
  (idx, vertIdx) ∈ [(0, 0); (1, x + 1); (2, x + 2)] →
  vertices p !! vertIdx = Some v →
  mkCorner (face0 + faceOffset ps i + x) idx (pos v) (plane_normal p)
           (polygonColor p) ∈ cornersFrom face0 ps.
Proof.
  revert face0 i. induction ps as [|q ps IH]; intros face0 i Hp Hx Hin Hv;
    [done|].
  cbn [cornersFrom]. apply elem_of_app. destruct i as [|i].
  - left. injection Hp as ->. unfold faceOffset, faceCount. cbn.
    rewrite Nat.add_0_r. unfold polygonCorners. apply list_elem_of_bind.
    exists x. split; [|apply elem_of_seq; lia].
    unfold faceCorners. apply list_elem_of_omap.
    exists (idx, vertIdx). split; [done|]. by rewrite Hv.
  - right. simpl in Hp.
    specialize (IH (face0 + (length (vertices q) - 2)) i Hp Hx Hin Hv).
    unfold faceOffset in *. cbn [take]. unfold faceCount in *.
    rewrite fmap_cons. cbn [sum_list sum_list_with].
    by rewrite <- !Nat.add_assoc in IH |- *.
Qed.

(** The corner [idx] of fan position [x] of polygon [i]. *)
Lemma corners_elem ps i p x idx vertIdx v :
  ps !! i = Some p → x < length (vertices p) - 2 →
  (idx, vertIdx) ∈ [(0, 0); (1, x + 1); (2, x + 2)] →
  vertices p !! vertIdx = Some v →
  mkCorner (faceOffset ps i + x) idx (pos v) (plane_normal p)
           (polygonColor p) ∈ corners ps.
Proof. apply (cornersFrom_elem 0). Qed.

End CornersFacts.

(** ** The emitted vertices are the corners, bucket by bucket *)

Lemma bind_Permutation_ext {A B} (f g : A → list B) (l : list A) :
  (∀ a, a ∈ l → f a ≡ₚ g a) → l ≫= f ≡ₚ l ≫= g.
Proof.
  induction l as [|a l IH]; intros Hfg; [done|].
  cbn [mbind list_bind]. rewrite Hfg by left.
  rewrite IH; [done|]. intros; apply Hfg; by right.
Qed.

Lemma omap_join {A B} (f : A → option B) (ls : list (list A)) :
  ls ≫= omap f = omap f (mjoin ls).
Proof.
  induction ls as [|l ls IH]; [done|].
  cbn [mbind list_bind mjoin list_join]. by rewrite omap_app, IH.
Qed.

Lemma length_bind_const {A B} (f : A → list B) n (l : list A) :
  (∀ a, length (f a) = n) → length (l ≫= f) = n * length l.
Proof.
  intros Hf. induction l as [|a l IH]; [simpl; lia|].
  cbn [mbind list_bind]. rewrite length_app, Hf, IH. simpl. lia.
Qed.

(** Triple [k] of a buffer made of triples. *)
Lemma triple_bind {A B} (f : A → list B) (l : list A) k a :
  (∀ a, length (f a) = 3) → l !! k = Some a → triple (l ≫= f) k = f a.
Proof.
  intros Hf. unfold triple. revert k.
  induction l as [|a' l IH]; intros k Hk; [done|].
  cbn [mbind list_bind]. destruct k as [|k].
  - injection Hk as ->. rewrite Nat.mul_0_r, drop_0.
    rewrite take_app_length'; [done|by rewrite Hf].
  - rewrite drop_app_ge by (rewrite Hf; lia).
    rewrite Hf. replace (3 * S k - 3) with (3 * k) by lia. by apply IH.
Qed.

Lemma triple_fmap {A B} (f : A → B) (l : list A) k :
  triple (f <$> l) k = f <$> triple l k.
Proof. unfold triple. by rewrite fmap_take, fmap_drop. Qed.

Section EmittedFacts.
Context {num : Type} `{Numerics num}.
Implicit Types (c : Corner num) (cs l : list (Corner num)) (k : string)
               (ks : list string).

Lemma bucketOf_cons c cs k :
  bucketOf (c :: cs) k =
  (if decide (c_key c = k) then [c] else []) ++ bucketOf cs k.
Proof. unfold bucketOf. rewrite filter_cons. by destruct (decide _). Qed.

(** The buckets share out the corners. *)
Lemma bucketOf_partition cs ks :
  NoDup ks → (∀ c, c ∈ cs → c_key c ∈ ks) → ks ≫= bucketOf cs ≡ₚ cs.
Proof.
  intros Hnd. induction cs as [|c cs IH]; intros Hks.
  - clear. induction ks as [|k ks IH]; [done|].
    cbn [mbind list_bind]. by rewrite IH.
  - destruct (list_elem_of_split ks (c_key c)) as (ks1 & ks2 & ->);
      [apply Hks; left|].
    apply NoDup_app in Hnd as Hnd'. destruct Hnd' as (_ & Hks1 & Hks2).
    apply NoDup_cons in Hks2 as [Hks2 _].
    rewrite <- IH at 2 by (intros; apply Hks; by right).
    rewrite !bind_app, !bind_cons.
    rewrite bucketOf_cons, decide_True by done.
    assert (∀ ks', c_key c ∉ ks' →
              ks' ≫= bucketOf (c :: cs) = ks' ≫= bucketOf cs) as Hsame.
    { intros ks' Hnotin. apply Forall_bind_ext, Forall_forall.
      intros k Hk. rewrite bucketOf_cons, decide_False; [done|].
      by intros <-. }
    rewrite !Hsame; [|done|].
    + cbn [app]. by rewrite <- Permutation_middle.
    + intros Hin. apply (Hks1 _ Hin). left.
Qed.

Lemma buckets_bind {B} (f : VertexEntry num → list B) cs :
  buckets cs ≫= (fun vertexObj => f vertexObj.2) =
  first_occurrences (c_key <$> cs) ≫= fun k => f (entryOf (bucketOf cs k)).
Proof. unfold buckets. by rewrite list_fmap_bind. Qed.

(** What a group of the entry of the corners [l] emits. *)
Lemma emittedGroup_entryOf l group :
  emittedGroup (entryOf l) group =
  omap (fun j =>
          (fun c => mkCorner (c_face c) (c_idx c) (ve_vertex (entryOf l))
                      (averageNormal (c_normal <$> l) group) (c_colour c))
            <$> l !! j)
       group.
Proof.
  unfold emittedGroup. apply list_omap_ext, Forall2_same_length_lookup.
  split; [done|]. intros i j j' Hj Hj'. assert (j = j') as <- by congruence.
  cbn [entryOf ve_colours ve_faces ve_normals].
  rewrite !list_lookup_fmap. by destruct (l !! j).
Qed.

Lemma emittedEntry_refs smoothingAngle l :
  c_ref <$> emittedEntry smoothingAngle (entryOf l) ≡ₚ c_ref <$> l.
Proof.
  unfold emittedEntry. rewrite fmap_bind_list.
  rewrite (list_bind_ext _ (omap (fun j => c_ref <$> l !! j)) _
             (groupNormals smoothingAngle (ve_normals (entryOf l))));
    [|intros group|done].
  2:{ rewrite emittedGroup_entryOf, list_fmap_omap.
      apply list_omap_ext, Forall2_same_length_lookup.
      split; [done|]. intros i j j' Hj Hj'. assert (j = j') as <- by congruence.
      by destruct (l !! j). }
  rewrite omap_join, groupNormals_partition.
  cbn [entryOf ve_normals]. rewrite length_fmap. by rewrite omap_lookup_seq.
Qed.

(** The emitted vertices fill the same places as the corners. *)
Lemma emitted_refs smoothingAngle cs :
  c_ref <$> emitted smoothingAngle (buckets cs) ≡ₚ c_ref <$> cs.
Proof.
  unfold emitted. rewrite buckets_bind, fmap_bind_list.
  rewrite (bind_Permutation_ext _ (fun k => c_ref <$> bucketOf cs k))
    by (intros; apply emittedEntry_refs).
  rewrite <- fmap_bind_list. apply fmap_Permutation, bucketOf_partition.
  - apply first_occurrences_NoDup.
  - intros c Hc. apply first_occurrences_elem_of.
    by apply list_elem_of_fmap_2.
Qed.

(** The position kept by a bucket carries the key of the bucket, and is
    the position of the first corner with that key. *)
Lemma bucket_vertex cs k :
  k ∈ c_key <$> cs →
  ∃ c0 rest, bucketOf cs k = c0 :: rest ∧
             ve_vertex (entryOf (bucketOf cs k)) = c_vertex c0 ∧
             c_key c0 = k ∧ c0 ∈ cs.
Proof.
  intros Hk. destruct (bucketOf cs k) as [|c0 rest] eqn:E.
  - by apply bucketOf_nonempty in Hk.
  - exists c0, rest. split_and!; try done.
    all: assert (c0 ∈ bucketOf cs k) as Hin by (rewrite E; left).
    all: apply list_elem_of_filter in Hin; naive_solver.
Qed.

(** Where a member of a group is emitted. *)
Lemma emitted_member smoothingAngle cs c group j :
  group ∈ groupNormals smoothingAngle (c_normal <$> bucketOf cs (c_key c)) →
  j ∈ group → bucketOf cs (c_key c) !! j = Some c →
  mkCorner (c_face c) (c_idx c)
           (ve_vertex (entryOf (bucketOf cs (c_key c))))
           (averageNormal (c_normal <$> bucketOf cs (c_key c)) group)
           (c_colour c)
    ∈ emitted smoothingAngle (buckets cs).
Proof.
  set (l := bucketOf cs (c_key c)). intros Hgroup Hjgroup Hj.
  assert (c ∈ cs) as Hc.
  { apply list_elem_of_lookup_2 in Hj. by apply list_elem_of_filter in Hj as [_ ?]. }
  unfold emitted. rewrite buckets_bind. apply list_elem_of_bind.
  exists (c_key c). split.
  - unfold emittedEntry. apply list_elem_of_bind. exists group.
    split; [|done]. fold l. rewrite emittedGroup_entryOf.
    apply list_elem_of_omap. exists j. split; [done|]. by rewrite Hj.
  - apply first_occurrences_elem_of. by apply list_elem_of_fmap_2.
Qed.

(** Every corner of the mesh is a member of a group of its bucket. *)
Lemma corner_group smoothingAngle cs c :
  c ∈ cs →
  ∃ group j,
    group ∈ groupNormals smoothingAngle (c_normal <$> bucketOf cs (c_key c)) ∧
    j ∈ group ∧ bucketOf cs (c_key c) !! j = Some c.
Proof.
  intros Hc. set (l := bucketOf cs (c_key c)).
  assert (c ∈ l) as [j Hj]%list_elem_of_lookup_1
    by (by apply list_elem_of_filter).
  destruct (groupNormals_elem smoothingAngle (c_normal <$> l) j)
    as (group & Hgroup & Hjgroup).
  { rewrite length_fmap. by eapply lookup_lt_Some. }
  by exists group, j.
Qed.
End EmittedFacts.

(** ** The buffers of the export *)

Section ExportFacts.
Context {num : Type} `{Numerics num}.
Implicit Types (csg : CSG num) (c : Corner num) (smoothingAngle : num).

Lemma emitted_length smoothingAngle (ps : list (Polygon num)) :
  length (emitted smoothingAngle (buckets (corners ps))) = 3 * faceCount ps.
Proof.
  rewrite <- (length_fmap c_ref), emitted_refs, length_fmap.
  apply corners_length.
Qed.

Lemma emitted_ref_valid smoothingAngle (ps : list (Polygon num)) c :
  c ∈ emitted smoothingAngle (buckets (corners ps)) →
  c_face c < faceCount ps ∧ c_idx c < 3.
Proof.
  intros Hc.
  assert (c_ref c ∈ c_ref <$> corners ps) as Hin.
  { rewrite <- emitted_refs. by apply list_elem_of_fmap_2. }
  rewrite corners_refs in Hin. apply faceRefs_bind_elem in Hin. lia.
Qed.

Lemma emitted_refs_NoDup smoothingAngle (ps : list (Polygon num)) :
  NoDup (c_ref <$> emitted smoothingAngle (buckets (corners ps))).
Proof. rewrite emitted_refs, corners_refs. apply faceRefs_bind_NoDup. Qed.

(** The buffers, in terms of the emitted vertices. *)
Lemma exportCSG_emitted csg smoothingAngle :
  let E := emitted smoothingAngle (buckets (corners (polygons csg))) in
  let out := exportCSG csg smoothingAngle in
  attr_position out = fround <$> (E ≫= (xyz ∘ c_vertex)) ∧
  attr_normal out = Some (fround <$> (E ≫= (xyz ∘ c_normal))) ∧
  attr_color out =
    (if existsb declaresColor (polygons csg)
     then Some (fround <$> (E ≫= (rgb ∘ c_colour))) else None) ∧
  ∃ indices,
    index out = Some indices ∧
    length indices = 3 * faceCount (polygons csg) ∧
    ∀ k c, E !! k = Some c → indices !! (3 * c_face c + c_idx c) = Some k.
Proof.
  intros E out. subst out. unfold exportCSG.
  rewrite buildVertexMap_buckets.
  cbn [bs_vertexMap bs_faces bs_colorsUsed].
  rewrite foldl_emitEntry. fold E.
  assert (three_places (replicate (faceCount (polygons csg)) [0; 0; 0]))
    as Hplaces by (by apply Forall_replicate).
  destruct (emitted_state _ E Hplaces)
    as (Hv & Hn & Hc & _ & Hlen & Hp & Hread).
  cbn zeta in *. rewrite length_replicate in Hlen.
  cbn [attr_position attr_normal attr_color index].
  rewrite Hv, Hn, Hc. split_and!; try done.
  eexists. split; [done|]. split.
  - by rewrite flattenFaces_length, Hlen.
  - intros k c Hk.
    destruct (emitted_ref_valid smoothingAngle (polygons csg) c)
      as [Hface Hidx]; [by eapply list_elem_of_lookup_2|].
    rewrite flattenFaces_lookup by (done || lia).
    apply Hread; try done.
    + apply emitted_refs_NoDup.
    + by rewrite length_replicate.
Qed.

Lemma vertexCount_export csg smoothingAngle :
  vertexCount (exportCSG csg smoothingAngle) = 3 * faceCount (polygons csg).
Proof.
  unfold vertexCount.
  destruct (exportCSG_emitted csg smoothingAngle) as (-> & _).
  rewrite length_fmap.
  rewrite (length_bind_const _ 3) by done.
  rewrite emitted_length.
  rewrite (Nat.mul_comm 3 (3 * _)). apply Nat.div_mul. lia.
Qed.
End ExportFacts.

Section ExportCorner.
Context {num : Type} `{Numerics num}.
Implicit Types (csg : CSG num) (c : Corner num) (smoothingAngle : num).

(** The vertex that a member of a group gets: its number is written in
    the place of the corner, and its position, normal and colour are those
    of the bucket, of the group and of the corner. *)
Lemma export_member csg smoothingAngle c group j :
  let cs := corners (polygons csg) in
  let l := bucketOf cs (c_key c) in
  let out := exportCSG csg smoothingAngle in
  group ∈ groupNormals smoothingAngle (c_normal <$> l) →
  j ∈ group → l !! j = Some c →
  ∃ k indices normal,
    index out = Some indices ∧ attr_normal out = Some normal ∧
    indices !! (3 * c_face c + c_idx c) = Some k ∧
    k < vertexCount out ∧
    triple (attr_position out) k = fround <$> xyz (ve_vertex (entryOf l)) ∧
    triple normal k = fround <$> xyz (averageNormal (c_normal <$> l) group) ∧
    ∀ colors, attr_color out = Some colors →
              triple colors k = fround <$> rgb (c_colour c).
Proof.
  intros cs l out Hgroup Hj Hl.
  pose proof (emitted_member smoothingAngle cs c group j Hgroup Hj Hl) as Hin.
  apply list_elem_of_lookup_1 in Hin as [k Hk].
  pose proof (vertexCount_export csg smoothingAngle) as HV.
  destruct (exportCSG_emitted csg smoothingAngle)
    as (Hpos & Hnormal & Hcolor & indices & Hindex & Hlen & Hslot).
  fold cs in Hk, Hpos, Hnormal, Hcolor, Hslot. fold out in HV, Hpos, Hnormal, Hcolor, Hindex.
  exists k, indices. eexists. split_and!; try done.
  - by apply Hslot in Hk.
  - rewrite HV, <- (emitted_length smoothingAngle). by eapply lookup_lt_Some.
  - by rewrite Hpos, triple_fmap,
       (triple_bind (xyz ∘ c_vertex) _ _ _ (fun _ => eq_refl) Hk).
  - by rewrite triple_fmap,
       (triple_bind (xyz ∘ c_normal) _ _ _ (fun _ => eq_refl) Hk).
  - intros colors. rewrite Hcolor. destruct (existsb _ _); [|done].
    intros [= <-].
    by rewrite triple_fmap,
       (triple_bind (rgb ∘ c_colour) _ _ _ (fun _ => eq_refl) Hk).
Qed.
End ExportCorner.

(** ** Keys, places and counts *)

Lemma NoDup_fmap_inj_on {A B} (f : A → B) (l : list A) a1 a2 :
  NoDup (f <$> l) → a1 ∈ l → a2 ∈ l → f a1 = f a2 → a1 = a2.
Proof.
  induction l as [|a l IH]; [by intros _ ?%elem_of_nil|].
  rewrite fmap_cons. intros [Hnotin Hnd]%NoDup_cons.
  intros [->|H1]%elem_of_cons [->|H2]%elem_of_cons Heq; try done.
  - exfalso. apply Hnotin. rewrite Heq. by apply list_elem_of_fmap_2.
  - exfalso. apply Hnotin. rewrite <- Heq. by apply list_elem_of_fmap_2.
  - by apply IH.
Qed.


Lemma has_underscore_app (s t : string) :
  has_underscore (s +:+ t) = has_underscore s || has_underscore t.
Proof.
  induction s as [|a s IH]; [done|]. simpl. by rewrite IH, orb_assoc.
Qed.

Lemma greedyGroups_nonempty (close : nat → nat → bool) rounds l :
  Forall (fun group => group ≠ []) (greedyGroups rounds close l).
Proof.
  revert l. induction rounds as [|rounds IH]; intros [|i l]; cbn;
    by constructor.
Qed.

Lemma nonempty_groups_length {A} (groups : list (list A)) :
  Forall (fun group => group ≠ []) groups →
  length groups ≤ length (mjoin groups).
Proof.
  induction 1 as [|group groups Hne _ IH]; [done|].
  change (mjoin (group :: groups)) with (group ++ mjoin groups).
  rewrite length_app.
  destruct group as [|a group]; [done|]. cbn [length]. lia.
Qed.

Lemma sum_list_fmap_le {A} (f g : A → nat) (l : list A) :
  (∀ a, f a ≤ g a) → sum_list (f <$> l) ≤ sum_list (g <$> l).
Proof.
  intros Hfg. induction l as [|a l IH]; [done|].
  csimpl. specialize (Hfg a). lia.
Qed.

Section Keys.
Context {num : Type} `{Numerics num}.
Implicit Types (c : Corner num) (cs : list (Corner num))
               (ps : list (Polygon num)) (v : Vector3 num).


(** Every key holds the separator, so none is an array index, for which
    [Object.values] would leave the order of insertion. *)
Lemma hash_has_underscore v : has_underscore (hash v) = true.
Proof.
  unfold hash. rewrite !has_underscore_app. simpl. by rewrite orb_true_r.
Qed.

Lemma corners_ref_inj ps c1 c2 :
  c1 ∈ corners ps → c2 ∈ corners ps → c_ref c1 = c_ref c2 → c1 = c2.
Proof.
  apply NoDup_fmap_inj_on. rewrite corners_refs. apply faceRefs_bind_NoDup.
Qed.


Lemma groupNormals_length_le (smoothingAngle : num) normals :
  length (groupNormals smoothingAngle normals) ≤ length normals.
Proof.
  etrans; [apply nonempty_groups_length|].
  - rewrite groupNormals_greedy. apply greedyGroups_nonempty.
  - by rewrite groupNormals_partition, length_seq.
Qed.

Lemma bucketOf_lengths cs (ks : list string) :
  NoDup ks → (∀ c, c ∈ cs → c_key c ∈ ks) →
  sum_list ((fun k => length (bucketOf cs k)) <$> ks) = length cs.
Proof.
  intros Hnd Hks.
  rewrite <- (Permutation_length (bucketOf_partition cs ks Hnd Hks)).
  clear. induction ks as [|k ks IH]; [done|].
  rewrite fmap_cons, bind_cons, length_app, <- IH. done.
Qed.

(** There are at most as many groups as corners. *)
Lemma smoothingGroupCount_le (smoothingAngle : num) ps :
  smoothingGroupCount smoothingAngle ps ≤ length (corners ps).
Proof.
  unfold smoothingGroupCount. rewrite buildVertexMap_buckets.
  cbn [bs_vertexMap]. unfold buckets. rewrite <- list_fmap_compose.
  rewrite <- (bucketOf_lengths (corners ps)
               (first_occurrences (c_key <$> corners ps))).
  - apply sum_list_fmap_le. intros k. cbn [compose snd].
    etrans; [apply groupNormals_length_le|].
    cbn [entryOf ve_normals]. by rewrite length_fmap.
  - apply first_occurrences_NoDup.
  - intros c Hc. apply first_occurrences_elem_of. by apply list_elem_of_fmap_2.
Qed.

(** Every vertex number occurs exactly once in the index. *)
Lemma export_indices_permutation (csg : CSG num) (smoothingAngle : num) :
  ∃ indices,
    index (exportCSG csg smoothingAngle) = Some indices ∧
    indices ≡ₚ seq 0 (vertexCount (exportCSG csg smoothingAngle)).
Proof.
  pose proof (vertexCount_export csg smoothingAngle) as HV.
  pose proof (emitted_length smoothingAngle (polygons csg)) as HE.
  destruct (exportCSG_emitted csg smoothingAngle)
    as (_ & _ & _ & indices & Hindex & Hlen & Hslot).
  exists indices. split; [done|]. symmetry.
  apply submseteq_length_Permutation.
  - apply NoDup_submseteq; [apply NoDup_seq|].
    intros k [_ Hk]%elem_of_seq.
    destruct (lookup_lt_is_Some_2
                (emitted smoothingAngle (buckets (corners (polygons csg)))) k)
      as [c Hc]; [lia|].
    apply Hslot in Hc. by eapply list_elem_of_lookup_2.
  - rewrite length_seq. lia.
Qed.
End Keys.

(** ** What the export does with a corner *)

Section ExportCorners.
Context {num : Type} `{Numerics num}.
Implicit Types (csg : CSG num) (c : Corner num) (smoothingAngle : num)
               (p : Polygon num) (ps : list (Polygon num)).

(** The entries of the vertex map are the entries of the buckets. *)
Lemma vertexMap_entry ps key (e : VertexEntry num) :
  (key, e) ∈ bs_vertexMap (buildVertexMap ps) →
  e = entryOf (bucketOf (corners ps) key) ∧ key ∈ c_key <$> corners ps.
Proof.
  rewrite buildVertexMap_buckets. cbn [bs_vertexMap]. unfold buckets.
  intros (k & [= -> ->] & Hk)%list_elem_of_fmap.
  split; [done|]. by apply first_occurrences_elem_of.
Qed.

Lemma vertexMap_lookup ps c :
  c ∈ corners ps →
  vm_lookup (c_key c) (bs_vertexMap (buildVertexMap ps)) =
  Some (entryOf (bucketOf (corners ps) (c_key c))).
Proof.
  intros Hc. rewrite buildVertexMap_buckets. cbn [bs_vertexMap].
  unfold buckets. rewrite vm_lookup_fmap, decide_True; [done|].
  apply first_occurrences_elem_of. by apply list_elem_of_fmap_2.
Qed.

(** The instance [j] of an entry is a corner of the mesh. *)
Lemma vertexMap_instance ps key (e : VertexEntry num) j face idx :
  (key, e) ∈ bs_vertexMap (buildVertexMap ps) →
  ve_faces e !! j = Some (face, idx) →
  ∃ c, bucketOf (corners ps) key !! j = Some c ∧ c_key c = key ∧
       c_face c = face ∧ c_idx c = idx ∧ c ∈ corners ps.
Proof.
  intros [-> _]%vertexMap_entry. cbn [entryOf ve_faces].
  rewrite list_lookup_fmap. intros (c & Hc & Href)%fmap_Some.
  unfold c_ref in Href. injection Href as -> ->.
  exists c. split_and!; try done.
  all: apply list_elem_of_lookup_2, list_elem_of_filter in Hc; naive_solver.
Qed.

(** A corner of the mesh is an instance of the entry under its key and a
    member of one of the groups of that entry. It gets a vertex of its
    own: the number of the vertex is in the place of the corner in the
    index; the position is the one kept by the entry, the normal is the
    average over the group, and the colour is the corner's. *)
Lemma export_corner csg smoothingAngle c :
  let vertexMap := bs_vertexMap (buildVertexMap (polygons csg)) in
  let out := exportCSG csg smoothingAngle in
  c ∈ corners (polygons csg) →
  ∃ e group j k indices normal,
    vm_lookup (c_key c) vertexMap = Some e ∧
    hash (ve_vertex e) = c_key c ∧
    group ∈ groupNormals smoothingAngle (ve_normals e) ∧ j ∈ group ∧
    ve_faces e !! j = Some (c_face c, c_idx c) ∧
    ve_normals e !! j = Some (c_normal c) ∧
    ve_colours e !! j = Some (c_colour c) ∧
    index out = Some indices ∧ attr_normal out = Some normal ∧
    indices !! (3 * c_face c + c_idx c) = Some k ∧
    k < vertexCount out ∧
    triple (attr_position out) k = fround <$> xyz (ve_vertex e) ∧
    triple normal k = fround <$> xyz (averageNormal (ve_normals e) group) ∧
    ∀ colors, attr_color out = Some colors →
              triple colors k = fround <$> rgb (c_colour c).
Proof.
  intros vertexMap out Hc. set (cs := corners (polygons csg)) in *.
  destruct (corner_group smoothingAngle cs c Hc) as (group & j & Hgroup & Hj & Hl).
  destruct (export_member csg smoothingAngle c group j Hgroup Hj Hl)
    as (k & indices & normal & Hindex & Hnormal & Hslot & Hk & Hpos & Hn & Hcol).
  destruct (bucket_vertex cs (c_key c)) as (c0 & rest & _ & Hv & Hkey & _);
    [by apply list_elem_of_fmap_2|].
  exists (entryOf (bucketOf cs (c_key c))), group, j, k, indices, normal.
  cbn [entryOf ve_faces ve_normals ve_colours] in *.
  rewrite !list_lookup_fmap, Hl.
  split_and!; try done.
  - by apply vertexMap_lookup.
  - cbn [ve_vertex] in *. rewrite Hv. apply Hkey.
Qed.

(** With [CSG] bound to the class of the meshes, a mesh gets past line
    35, and lines 37-150 are run on it at the angle of line 34. *)
Lemma exportThreeGeometry_mesh csg (angle : option num) :
  exportThreeGeometry meshClass (GeomCSG csg) angle =
  Returns (GeomBuffer (exportCSG csg (default defaultSmoothingAngle angle))).
Proof. done. Qed.

Lemma corner_ref_valid ps c :
  c ∈ corners ps → c_face c < faceCount ps ∧ c_idx c < 3.
Proof.
  intros Hc. assert (c_ref c ∈ c_ref <$> corners ps) as Hin
    by (by apply list_elem_of_fmap_2).
  rewrite corners_refs in Hin. apply faceRefs_bind_elem in Hin. lia.
Qed.

(** Two different corners get two different vertex numbers. *)
Lemma export_distinct csg smoothingAngle c1 c2 indices k1 k2 :
  c1 ∈ corners (polygons csg) → c2 ∈ corners (polygons csg) → c1 ≠ c2 →
  index (exportCSG csg smoothingAngle) = Some indices →
  indices !! (3 * c_face c1 + c_idx c1) = Some k1 →
  indices !! (3 * c_face c2 + c_idx c2) = Some k2 →
  k1 ≠ k2.
Proof.
  intros Hc1 Hc2 Hne Hindex Hk1 Hk2 <-.
  destruct (export_indices_permutation csg smoothingAngle)
    as (indices' & Hindex' & Hperm).
  assert (indices' = indices) as -> by congruence.
  assert (NoDup indices) as Hnd by (rewrite Hperm; apply NoDup_seq).
  pose proof (NoDup_lookup _ _ _ _ Hnd Hk1 Hk2) as Hslot.
  destruct (corner_ref_valid _ _ Hc1), (corner_ref_valid _ _ Hc2).
  apply Hne, (corners_ref_inj (polygons csg)); [done..|].
  unfold c_ref. f_equal; lia.
Qed.

Lemma triangleCount_export csg smoothingAngle :
  triangleCount (exportCSG csg smoothingAngle) = faceCount (polygons csg).
Proof.
  unfold triangleCount.
  destruct (exportCSG_emitted csg smoothingAngle)
    as (_ & _ & _ & indices & -> & Hlen & _).
  change (default [] (Some indices)) with indices.
  rewrite Hlen, Nat.mul_comm.
  apply Nat.div_mul. lia.
Qed.

Lemma faceCount_app ps qs : faceCount (ps ++ qs) = faceCount ps + faceCount qs.
Proof.
  unfold faceCount. induction ps as [|p ps IH]; [done|].
  rewrite <- app_comm_cons, !fmap_cons. simpl. rewrite IH. lia.
Qed.

Lemma faceOffset_S ps i p :
  ps !! i = Some p →
  faceOffset ps (S i) = faceOffset ps i + (length (vertices p) - 2).
Proof.
  intros Hp. unfold faceOffset.
  rewrite (take_S_r _ _ _ Hp), faceCount_app.
  unfold faceCount. simpl. lia.
Qed.

(** The corner [idx] of the triangle number [k] of polygon [i]. *)
Lemma fan_corner ps i p k idx :
  ps !! i = Some p → k < length (vertices p) - 2 → idx < 3 →
  ∃ v, vertices p !! fanVertex k idx = Some v ∧
       mkCorner (faceOffset ps i + k) idx (pos v) (plane_normal p)
                (polygonColor p) ∈ corners ps.
Proof.
  intros Hp Hk Hidx.
  destruct (lookup_lt_is_Some_2 (vertices p) (fanVertex k idx)) as [v Hv].
  { unfold fanVertex. destruct idx; lia. }
  exists v. split; [done|].
  eapply corners_elem; [done..| |done].
  rewrite !elem_of_cons. unfold fanVertex.
  destruct idx as [|[|[|]]]; try lia; naive_solver.
Qed.
End ExportCorners.

(** * Theorems on [exportThreeGeometry] *)

Section ExportTheorems.
Context {num : Type} `{Numerics num}.
Implicit Types (csg : CSG num) (c : Corner num) (smoothingAngle : num)
               (p : Polygon num) (ps : list (Polygon num)).

Lemma corners_NoDup ps : NoDup (corners ps).
Proof.
  apply (NoDup_fmap_1 c_ref). rewrite corners_refs. apply faceRefs_bind_NoDup.
Qed.

(** C1, as amended. With [CSG] bound to the class of the meshes, the
    export of a mesh returns a buffer geometry, at the angle given or at
    the default one, that has one vertex for every corner of every
    triangle: the number of vertices is the number of corners, three
    times the number of triangles, and at least the number of smoothing
    groups; the index holds every vertex number exactly once; the members
    of one smoothing group get vertices with the same position and the
    same averaged normal, and different members get different vertex
    numbers. *)
Theorem export_one_vertex_per_corner global_CSG csg (angle : option num) :
  let smoothingAngle := default defaultSmoothingAngle angle in
  let vertexMap := bs_vertexMap (buildVertexMap (polygons csg)) in
  global_CSG = meshClass →
  ∃ out,
    exportThreeGeometry global_CSG (GeomCSG csg) angle =
      Returns (GeomBuffer out) ∧
    vertexCount out = length (corners (polygons csg)) ∧
    vertexCount out = 3 * triangleCount out ∧
    smoothingGroupCount smoothingAngle (polygons csg) ≤ vertexCount out ∧
    (∃ indices, index out = Some indices ∧ indices ≡ₚ seq 0 (vertexCount out)) ∧
    ∀ key e group j1 j2 face1 idx1 face2 idx2,
      (key, e) ∈ vertexMap →
      group ∈ groupNormals smoothingAngle (ve_normals e) →
      j1 ∈ group → j2 ∈ group →
      ve_faces e !! j1 = Some (face1, idx1) →
      ve_faces e !! j2 = Some (face2, idx2) →
      ∃ k1 k2 indices normal,
        index out = Some indices ∧ attr_normal out = Some normal ∧
        indices !! (3 * face1 + idx1) = Some k1 ∧
        indices !! (3 * face2 + idx2) = Some k2 ∧
        triple (attr_position out) k1 = fround <$> xyz (ve_vertex e) ∧
        triple (attr_position out) k2 = fround <$> xyz (ve_vertex e) ∧
        triple normal k1 = fround <$> xyz (averageNormal (ve_normals e) group) ∧
        triple normal k2 = fround <$> xyz (averageNormal (ve_normals e) group) ∧
        (j1 ≠ j2 → k1 ≠ k2).
Proof.
  intros smoothingAngle vertexMap ->.
  exists (exportCSG csg smoothingAngle).
  split; [apply exportThreeGeometry_mesh|].
  set (out := exportCSG csg smoothingAngle). set (cs := corners (polygons csg)).
  assert (vertexCount out = length cs) as HV.
  { subst out cs. by rewrite vertexCount_export, corners_length. }
  split_and!.
  - done.
  - subst out. by rewrite vertexCount_export, triangleCount_export.
  - rewrite HV. apply smoothingGroupCount_le.
  - apply export_indices_permutation.
  - intros key e group j1 j2 face1 idx1 face2 idx2 He Hgroup Hj1 Hj2 Hf1 Hf2.
    destruct (vertexMap_instance _ _ _ _ _ _ He Hf1)
      as (c1 & Hl1 & Hkey1 & <- & <- & Hc1).
    destruct (vertexMap_instance _ _ _ _ _ _ He Hf2)
      as (c2 & Hl2 & Hkey2 & <- & <- & Hc2).
    apply vertexMap_entry in He as [-> _].
    cbn [entryOf ve_normals] in Hgroup |- *. fold cs in Hgroup, Hl1, Hl2 |- *.
    pose proof (export_member csg smoothingAngle c1 group j1) as Hm1.
    pose proof (export_member csg smoothingAngle c2 group j2) as Hm2.
    cbn zeta in Hm1, Hm2. fold cs in Hm1, Hm2.
    rewrite Hkey1 in Hm1. rewrite Hkey2 in Hm2.
    destruct (Hm1 Hgroup Hj1 Hl1)
      as (k1 & indices & normal & Hindex & Hnormal & Hk1 & _ & Hp1 & Hn1 & _).
    destruct (Hm2 Hgroup Hj2 Hl2)
      as (k2 & indices' & normal' & Hindex' & Hnormal' & Hk2 & _ & Hp2 & Hn2 & _).
    fold out in Hindex, Hindex', Hnormal, Hnormal', Hp1, Hp2.
    assert (indices' = indices) as -> by congruence.
    assert (normal' = normal) as -> by congruence.
    exists k1, k2, indices, normal. split_and!; try done.
    intros Hj. eapply export_distinct; [exact Hc1|exact Hc2| |done..].
    intros <-. apply Hj.
    eapply NoDup_lookup; [|exact Hl1|exact Hl2].
    apply NoDup_filter, corners_NoDup.
Qed.


(** C3. The loops of lines 84-105 form the groups that section 4.2,
    step 3 describes: the lowest ungrouped instance is the seed, and a
    later ungrouped instance joins exactly when the angle between its
    normal and the seed's is at most the smoothing angle, whatever the
    other members are. The normal of a group is the renormalized sum of
    the normals of its members, and that is the normal of every vertex
    emitted for the group. *)
Theorem greedy_smoothing_groups smoothingAngle (vertexObj : string * VertexEntry num) :
  let normals := ve_normals vertexObj.2 in
  groupNormals smoothingAngle normals = smoothingGroups smoothingAngle normals ∧
  (∀ group, averageNormal normals group =
            renormalizedSum (omap (fun j => normals !! j) group)) ∧
  ∀ st, emitEntry smoothingAngle st vertexObj =
        foldl emitOne st
          (smoothingGroups smoothingAngle normals ≫= fun group =>
             omap (fun j =>
                     match ve_colours vertexObj.2 !! j, ve_faces vertexObj.2 !! j with
                     | Some colour, Some (face, idx) =>
                         Some (mkCorner face idx (ve_vertex vertexObj.2)
                                 (renormalizedSum (omap (fun j => normals !! j) group))
                                 colour)
                     | _, _ => None
                     end)
                  group).
Proof.
  intros normals.
  assert (∀ group, averageNormal normals group =
                   renormalizedSum (omap (fun j => normals !! j) group)) as Havg.
  { intros group. unfold averageNormal, renormalizedSum.
    by rewrite <- foldl_omap. }
  split_and!; [apply groupNormals_greedy|done|].
  intros st. rewrite emitEntry_emitted. unfold emittedEntry.
  rewrite groupNormals_greedy. fold normals. f_equal.
  apply list_bind_ext; [|done]. intros group. unfold emittedGroup.
  fold normals. by rewrite Havg.
Qed.

End ExportTheorems.

Section BufferTheorems.
Context {num : Type} `{Numerics num}.
Implicit Types (csg : CSG num) (c : Corner num) (smoothingAngle : num)
               (p : Polygon num) (ps : list (Polygon num)).

Lemma existsb_declaresColor ps :
  existsb declaresColor ps = true ↔ ∃ p, p ∈ ps ∧ is_Some (shared_color p).
Proof.
  rewrite existsb_exists. split; intros (p & Hp & Hc); exists p.
  - apply list_elem_of_In in Hp. split; [done|].
    unfold declaresColor in Hc. by destruct (shared_color p).
  - apply list_elem_of_In in Hp. split; [done|].
    unfold declaresColor. by destruct Hc as [? ->].
Qed.

(** C7. With [CSG] bound to the class of the meshes, what the export
    returns has a colour buffer exactly when a polygon of the mesh
    declares a colour. When it is there it has three numbers for every
    vertex, and the vertices of the corners of a polygon without a colour
    carry white, whatever the other polygons declare. *)
Theorem color_buffer_presence global_CSG csg (angle : option num) :
  let ps := polygons csg in
  global_CSG = meshClass →
  ∃ out,
    exportThreeGeometry global_CSG (GeomCSG csg) angle =
      Returns (GeomBuffer out) ∧
    (is_Some (attr_color out) ↔ ∃ p, p ∈ ps ∧ is_Some (shared_color p)) ∧
    (∀ colors, attr_color out = Some colors →
               length colors = 3 * vertexCount out) ∧
    ∀ i p k idx colors indices,
      ps !! i = Some p → shared_color p = None →
      k < length (vertices p) - 2 → idx < 3 →
      attr_color out = Some colors → index out = Some indices →
      ∃ vertexNumber,
        indices !! (3 * (faceOffset ps i + k) + idx) = Some vertexNumber ∧
        triple colors vertexNumber = [fround num_1; fround num_1; fround num_1].
Proof.
  intros ps ->. set (smoothingAngle := default defaultSmoothingAngle angle).
  exists (exportCSG csg smoothingAngle).
  split; [apply exportThreeGeometry_mesh|].
  set (out := exportCSG csg smoothingAngle).
  destruct (exportCSG_emitted csg smoothingAngle)
    as (_ & _ & Hcolor & _). fold out ps in Hcolor.
  split_and!.
  - rewrite <- existsb_declaresColor, Hcolor.
    destruct (existsb declaresColor ps); split; done || by intros [? ?].
  - intros colors. rewrite Hcolor.
    destruct (existsb declaresColor ps); [|done]. intros [= <-].
    rewrite length_fmap, (length_bind_const _ 3) by done.
    subst out ps. rewrite emitted_length, vertexCount_export. lia.
  - intros i p k idx colors indices Hp Hnone Hk Hidx Hcolors Hindex.
    destruct (fan_corner ps i p k idx Hp Hk Hidx) as (v & Hv & Hc).
    destruct (export_corner csg smoothingAngle _ Hc)
      as (_ & _ & _ & vn & indices' & _ & _ & _ & _ & _ & _ & _ & _
          & Hindex' & _ & Hvn & _ & _ & _ & Hcol).
    fold out in Hindex', Hcol.
    assert (indices' = indices) as -> by congruence.
    exists vn. split; [done|].
    rewrite (Hcol _ Hcolors). cbn [c_colour]. unfold polygonColor.
    by rewrite Hnone.
Qed.

(** C8. With [CSG] bound to the class of the meshes, what the export
    returns is a function of the polygons of the mesh and of the
    smoothing angle. The buckets stand in the vertex map in the order in
    which their keys first occur among the corners (every key holds an
    underscore, so [Object.values] keeps that order), and the vertices are
    emitted bucket after bucket in that order. *)
Theorem export_deterministic global_CSG csg1 csg2 (angle1 angle2 : option num) :
  let smoothingAngle1 := default defaultSmoothingAngle angle1 in
  global_CSG = meshClass →
  polygons csg1 = polygons csg2 → angle1 = angle2 →
  ∃ out,
    exportThreeGeometry global_CSG (GeomCSG csg1) angle1 =
      Returns (GeomBuffer out) ∧
    exportThreeGeometry global_CSG (GeomCSG csg2) angle2 =
      Returns (GeomBuffer out) ∧
    (bs_vertexMap (buildVertexMap (polygons csg1))).*1 =
      first_occurrences (c_key <$> corners (polygons csg1)) ∧
    Forall (fun k => has_underscore k = true)
           (bs_vertexMap (buildVertexMap (polygons csg1))).*1 ∧
    attr_position out =
      fround <$> (emitted smoothingAngle1
                    (bs_vertexMap (buildVertexMap (polygons csg1)))
                  ≫= (xyz ∘ c_vertex)).
Proof.
  intros smoothingAngle1 -> Hps <-.
  exists (exportCSG csg1 smoothingAngle1). split_and!.
  - apply exportThreeGeometry_mesh.
  - rewrite exportThreeGeometry_mesh. fold smoothingAngle1.
    unfold exportCSG. by rewrite Hps.
  - rewrite buildVertexMap_buckets. cbn [bs_vertexMap]. unfold buckets.
    rewrite <- list_fmap_compose. apply list_fmap_id.
  - rewrite buildVertexMap_buckets. cbn [bs_vertexMap]. unfold buckets.
    rewrite <- list_fmap_compose, list_fmap_id. apply Forall_forall.
    intros k (c & -> & _)%first_occurrences_elem_of%list_elem_of_fmap.
    apply hash_has_underscore.
  - rewrite buildVertexMap_buckets. cbn [bs_vertexMap].
    by destruct (exportCSG_emitted csg1 smoothingAngle1) as (-> & _).
Qed.

(** C9. With [CSG] bound to the class of the meshes, in what the export
    returns every place of every face array holds the number of the
    vertex emitted for its corner: the instances of every bucket are
    shared out among its groups, each in exactly one; every number in the
    index is below the number of vertices; and the index is the sequence
    of the face arrays, three numbers each, in the order of creation of
    the faces. *)
Theorem index_buffer_populated global_CSG csg (angle : option num) :
  let smoothingAngle := default defaultSmoothingAngle angle in
  let ps := polygons csg in
  let built := buildVertexMap ps in
  global_CSG = meshClass →
  ∃ out indices,
    exportThreeGeometry global_CSG (GeomCSG csg) angle =
      Returns (GeomBuffer out) ∧
    index out = Some indices ∧
    length indices = 3 * faceCount ps ∧
    Forall (fun i => i < vertexCount out) indices ∧
    (∀ vertexObj, vertexObj ∈ bs_vertexMap built →
       mjoin (groupNormals smoothingAngle (ve_normals vertexObj.2))
         ≡ₚ seq 0 (length (ve_normals vertexObj.2))) ∧
    ∀ c, c ∈ corners ps →
      ∃ k c', emitted smoothingAngle (bs_vertexMap built) !! k = Some c' ∧
              c_ref c' = c_ref c ∧
              indices !! (3 * c_face c + c_idx c) = Some k.
Proof.
  intros smoothingAngle ps built ->.
  set (out := exportCSG csg smoothingAngle).
  destruct (exportCSG_emitted csg smoothingAngle)
    as (_ & _ & _ & indices & Hindex & Hlen & Hslot).
  fold ps out in Hindex, Hlen, Hslot.
  exists out, indices. split_and!; try done.
  - destruct (export_indices_permutation csg smoothingAngle)
      as (indices' & Hindex' & Hperm). fold out in Hindex', Hperm.
    assert (indices' = indices) as -> by congruence.
    rewrite Hperm. apply Forall_forall. by intros k [_ ?]%elem_of_seq.
  - intros vertexObj _. apply groupNormals_partition.
  - intros c Hc. subst built. rewrite buildVertexMap_buckets.
    cbn [bs_vertexMap].
    destruct (corner_group smoothingAngle (corners ps) c Hc)
      as (group & j & Hgroup & Hj & Hl).
    pose proof (emitted_member smoothingAngle _ c group j Hgroup Hj Hl) as Hin.
    apply list_elem_of_lookup_1 in Hin as [k Hk].
    eexists k, _. split; [exact Hk|]. split; [done|].
    by apply Hslot in Hk.
Qed.
End BufferTheorems.

(** * Theorems on the import and on the dispatch *)

Lemma strides_length step bound :
  length (strides step bound) = (bound + (step - 1)) / step.
Proof. unfold strides. by rewrite length_fmap, length_seq. Qed.

Lemma strides_lookup step bound t :
  t < (bound + (step - 1)) / step → strides step bound !! t = Some (t * step).
Proof.
  intros Ht. unfold strides. rewrite list_lookup_fmap.
  by rewrite (lookup_seq_lt 0) by done.
Qed.

Section ImportTheorems.
Context {num : Type} `{MathIndex num}.

(** C5, as amended. The import checks nothing and raises nothing. With a
    non-empty index it makes a triangle for every started group of three
    indices, otherwise one for every started group of nine position
    floats; a coordinate read past the end of an array reaches the vertex
    constructor as [undefined]. Both cache flags of the result are
    cleared. *)
Theorem import_never_validates (geometry : BufferGeometry num) :
  let vectors := attr_position geometry in
  ∃ csg,
    importThreeGeometry (GeomBuffer geometry) = Returns csg ∧
    isCanonicalized csg = false ∧ isRetesselated csg = false ∧
    match index geometry with
    | Some ((_ :: _) as vertices) =>
        length (polygons csg) = (length vertices + 2) / 3 ∧
        ∀ t, t < (length vertices + 2) / 3 →
             polygons csg !! t =
             Some (Polygon_new (getVertexes vertices vectors (t * 3)))
    | _ =>
        length (polygons csg) = (length vectors + 8) / 9 ∧
        ∀ t, t < (length vectors + 8) / 9 →
             polygons csg !! t =
             Some (Polygon_new [getVertex2 vectors (t * 9);
                                getVertex2 vectors (t * 9 + 3);
                                getVertex2 vectors (t * 9 + 6)])
    end.
Proof.
  intros vectors. unfold importThreeGeometry. fold vectors.
  destruct (index geometry) as [[|i vertices]|];
    cbn [default from_option id];
    (rewrite bool_decide_eq_true_2 by done) ||
    (rewrite bool_decide_eq_false_2 by done);
    (eexists; split; [reflexivity|]);
    cbn [isCanonicalized isRetesselated polygons];
    (split; [done|]); (split; [done|]);
    (split; [rewrite length_fmap, strides_length; reflexivity|]);
    intros t Ht; rewrite list_lookup_fmap, strides_lookup by exact Ht;
    reflexivity.
Qed.

Lemma import_returns (geometry : Geometry num) :
  ∃ csg, importThreeGeometry geometry = Returns csg.
Proof. destruct geometry; by eexists. Qed.
End ImportTheorems.

Section DispatchTheorems.
Context {num value : Type} `{Numerics num} `{MathIndex num} `{CoreCSG num value}.
Implicit Types (objects : list (Geometry num))
               (colors : list (option (DispatchColor num))).

Lemma prepareFrom_returns index objects colors :
  ∃ converted,
    prepareFrom index objects colors = Returns converted ∧
    length converted = length objects ∧
    ∀ i object, objects !! i = Some object →
      ∃ csg, importThreeGeometry object = Returns csg ∧
             converted !! i =
             Some (match colors !! (index + i) with
                   | Some (Some c) => setColor csg (appliedColor c)
                   | _ => csg
                   end).
Proof.
  revert index. induction objects as [|object objects IH]; intros index.
  - exists []. by split_and!.
  - destruct (import_returns object) as [csg Hcsg].
    destruct (IH (S index)) as (converted & Hrest & Hlen & Hconv).
    cbn [prepareFrom]. rewrite Hcsg. cbn [bindOutcome].
    rewrite Hrest. cbn [bindOutcome]. eexists. split; [reflexivity|].
    split; [simpl; by rewrite Hlen|].
    intros [|i] object' Hobject.
    + injection Hobject as <-. exists csg. rewrite Nat.add_0_r.
      split; [done|]. reflexivity.
    + destruct (Hconv i object' Hobject) as (csg' & ? & Hi).
      exists csg'. split; [done|].
      replace (index + S i) with (S index + i) by lia. exact Hi.
Qed.

(** C6, as amended. The dispatch does not look at a list of allowed
    names. It always converts the inputs first; then the name is looked up
    on the first converted mesh and what is found is called with the other
    meshes. A name under which the mesh has no function, or an empty list
    of inputs, ends in the TypeError of JavaScript. *)
Theorem dispatch_dynamic_lookup operation objects colors :
  ∃ converted,
    prepareObjects objects colors = Returns converted ∧
    length converted = length objects ∧
    runOperation operation objects colors =
    match converted with
    | [] => Throws TypeError
    | firstObject :: rest =>
        match method operation with
        | Some f => f firstObject rest
        | None => Throws TypeError
        end
    end.
Proof.
  destruct (prepareFrom_returns 0 objects colors) as (converted & Hconv & Hlen & _).
  exists converted. unfold runOperation, prepareObjects.
  rewrite Hconv. by split_and!.
Qed.

(** C10. An input that comes with a colour, and whose object is given
    at no other position that has a colour, has [setColor] called on its
    converted mesh with the four numbers [r, g, b, 1], whatever alpha the
    colour itself carries; when [setColor] sets the colour of every
    polygon, every polygon of that mesh carries [r, g, b, 1]. *)
Theorem dispatch_color_opaque objects colors i object c :
  objects !! i = Some object → colors !! i = Some (Some c) →
  stands_alone objects colors i →
  ∃ converted csg,
    prepareObjects objects colors = Returns converted ∧
    importThreeGeometry object = Returns csg ∧
    converted !! i =
      Some (setColor csg (mkSharedColor (dc_r c) (dc_g c) (dc_b c) (Some num_1))) ∧
    ((∀ csg' color, setColor csg' color = setColor_all csg' color) →
     ∀ csg' p, converted !! i = Some csg' → p ∈ polygons csg' →
       shared_color p =
       Some (mkSharedColor (dc_r c) (dc_g c) (dc_b c) (Some num_1))).
Proof.
  intros Hobject Hcolor _.
  destruct (prepareFrom_returns 0 objects colors) as (converted & Hconv & _ & Hall).
  destruct (Hall i object Hobject) as (csg & Hcsg & Hi).
  cbn [plus] in Hi. rewrite Hcolor in Hi.
  exists converted, csg. split_and!; try done.
  intros Hset csg' p. rewrite Hi, Hset. intros [= <-].
  cbn [setColor_all polygons].
  by intros (q & -> & _)%list_elem_of_fmap.
Qed.
End DispatchTheorems.

(** * Worked examples *)

Module Examples.
Import ExactNumbers.

(** C1 fails on the unit square, exported at the default angle with
    [CSG] bound to the class of the meshes: its four buckets hold one
    smoothing group each, yet six vertices are emitted, not four, and the
    two corners at the origin, members of one group, get the vertex
    numbers 0 and 1. *)
Lemma unit_square_six_vertices :
  ∃ out,
    exportThreeGeometry meshClass (GeomCSG unit_square) None =
      Returns (GeomBuffer out) ∧
    smoothingGroupCount forty_degrees (polygons unit_square) = 4 ∧
    groupNormals forty_degrees
      (c_normal <$> bucketOf (corners (polygons unit_square))
                             (c_key (origin_corner 0))) = [[0; 1]] ∧
    vertexCount out = 6 ∧
    vertexCount out ≠ smoothingGroupCount forty_degrees (polygons unit_square) ∧
    triangleCount out = 2 ∧
    index out = Some [0; 2; 3; 1; 4; 5].
Proof. eexists. split; [reflexivity|]. vm_compute. by split_and!. Qed.

(** C5 fails on an index of four entries: nothing is raised, and the
    result has a second triangle with two vertices read from [undefined]. *)
Lemma import_accepts_malformed :
  well_formed_buffer four_indices = false ∧
  importThreeGeometry (GeomBuffer four_indices) ≠ Throws ValidationError ∧
  importThreeGeometry (GeomBuffer four_indices) =
  Returns
    (mkCSG
       [ mkPolygon [vertex 0 0 0; vertex 1 0 0; vertex 1 1 0] (vec 0 0 1) None;
         mkPolygon [vertex 0 0 0; mkVertex (mkVector3 NaN NaN NaN);
                    mkVertex (mkVector3 NaN NaN NaN)]
                   (mkVector3 NaN NaN NaN) None ]
       false false).
Proof. vm_compute. by split_and!. Qed.

(** C6 fails on the name [setColor], which is not among the allowed
    names: the call goes through to the method of the first mesh. A name
    that the mesh does not have ends in a TypeError, after the conversion
    of the inputs. *)
Lemma dispatch_accepts_unlisted :
  ("setColor" ∉ allow_list) ∧
  (runOperation "setColor" [GeomCSG unit_square] [] ≠
     Throws UnsupportedOperationError) ∧
  runOperation "setColor" [GeomCSG unit_square] [] = Returns unit_square ∧
  ("frobnicate" ∉ allow_list) ∧
  runOperation "frobnicate" [GeomCSG unit_square] [] = Throws TypeError.
Proof.
  unfold allow_list. rewrite !elem_of_cons, !elem_of_nil.
  split_and!; try done; by intros [?|[?|[?|?]]].
Qed.

(** The two corners of the unit square at the origin are the two members
    of one group: their vertices have one position and two numbers. *)
Lemma export_one_vertex_per_corner_witness :
  ∃ out,
    exportThreeGeometry meshClass (GeomCSG unit_square) (Some forty_degrees) =
      Returns (GeomBuffer out) ∧
    vertexCount out = 3 * triangleCount out ∧
    ∃ k1 k2 indices,
      index out = Some indices ∧
      indices !! (3 * 0 + 0) = Some k1 ∧ indices !! (3 * 1 + 0) = Some k2 ∧
      triple (attr_position out) k1 = [Num 0; Num 0; Num 0] ∧
      triple (attr_position out) k2 = [Num 0; Num 0; Num 0] ∧
      k1 ≠ k2.
Proof.
  destruct (export_one_vertex_per_corner meshClass unit_square
              (Some forty_degrees) eq_refl)
    as (out & Hout & _ & HV & _ & _ & Hgroup).
  exists out. split; [exact Hout|]. split; [exact HV|].
  destruct (Hgroup "0.0000_0.0000_0.0000"
              (entryOf (bucketOf (corners (polygons unit_square))
                                 "0.0000_0.0000_0.0000"))
              [0; 1] 0 1 0 0 1 0)
    as (k1 & k2 & indices & normal & Hindex & _ & Hk1 & Hk2 & Hp1 & Hp2 & _ & _ & Hne).
  - vm_compute. left.
  - vm_compute. left.
  - left.
  - right. left.
  - reflexivity.
  - reflexivity.
  - exists k1, k2, indices.
    split_and!; [exact Hindex|exact Hk1|exact Hk2|exact Hp1|exact Hp2|].
    apply Hne. discriminate.
Defined.



(** In the two-tone square the corners of the plain triangle are white. *)
Lemma color_buffer_presence_witness :
  let ps := polygons two_tone_square in
  ps !! 1 = Some plain_triangle ∧ shared_color plain_triangle = None ∧
  ∃ out,
    exportThreeGeometry meshClass (GeomCSG two_tone_square)
      (Some forty_degrees) = Returns (GeomBuffer out) ∧
    is_Some (attr_color out) ∧
    ∃ vertexNumber,
      default [] (index out) !! (3 * (faceOffset ps 1 + 0) + 0)
        = Some vertexNumber ∧
      triple (default [] (attr_color out)) vertexNumber
        = [Num 1; Num 1; Num 1].
Proof.
  destruct (color_buffer_presence meshClass two_tone_square
              (Some forty_degrees) eq_refl)
    as (out & Hout & Hsome & _ & Hwhite).
  split_and!; [reflexivity|reflexivity|].
  exists out. split; [exact Hout|].
  assert (is_Some (attr_color out)) as [colors Hcolors].
  { apply Hsome. exists red_triangle. split; [left|by eexists]. }
  assert (is_Some (index out)) as [indices Hindex].
  { injection Hout as <-. by eexists. }
  split; [by eexists|]. rewrite Hcolors, Hindex.
  apply (Hwhite 1 plain_triangle 0 0); try reflexivity;
    first [exact Hcolors | exact Hindex | vm_compute; lia].
Defined.

(** The cache flags of the mesh do not matter. *)
Lemma export_deterministic_witness :
  let csg2 := mkCSG (polygons unit_square) true true in
  polygons unit_square = polygons csg2 ∧
  exportThreeGeometry meshClass (GeomCSG unit_square) (Some forty_degrees) =
  exportThreeGeometry meshClass (GeomCSG csg2) (Some forty_degrees).
Proof.
  split; [reflexivity|].
  destruct (export_deterministic meshClass unit_square
              (mkCSG (polygons unit_square) true true)
              (Some forty_degrees) (Some forty_degrees)
              eq_refl eq_refl eq_refl)
    as (out & Hout1 & Hout2 & _).
  rewrite Hout1, Hout2. reflexivity.
Defined.

(** The place of the corner of the second triangle at the origin. *)
Lemma index_buffer_populated_witness :
  origin_corner 1 ∈ corners (polygons unit_square) ∧
  ∃ out indices k,
    exportThreeGeometry meshClass (GeomCSG unit_square) (Some forty_degrees) =
      Returns (GeomBuffer out) ∧
    index out = Some indices ∧ indices !! 3 = Some k ∧
    k < vertexCount out.
Proof.
  assert (origin_corner 1 ∈ corners (polygons unit_square)) as H1
    by (apply (list_elem_of_lookup_2 _ 3); reflexivity).
  split; [exact H1|].
  destruct (index_buffer_populated meshClass unit_square (Some forty_degrees)
              eq_refl)
    as (out & indices & Hout & Hindex & _ & Hall & _ & Hcorner).
  destruct (Hcorner _ H1) as (k & c' & _ & _ & Hk).
  exists out, indices, k. split_and!; [exact Hout|exact Hindex|exact Hk|].
  rewrite Forall_forall in Hall. apply Hall.
  by eapply list_elem_of_lookup_2.
Defined.

(** Half-transparent green is applied as opaque green to the unit
    square, which is not the object given with the second colour. *)
Lemma dispatch_color_opaque_witness :
  let objects := [GeomCSG unit_square; GeomCSG unit_quad] in
  let colors := [Some green_glass; Some green_glass] in
  objects !! 0 = Some (GeomCSG unit_square) ∧
  colors !! 0 = Some (Some green_glass) ∧
  stands_alone objects colors 0 ∧
  ∃ converted,
    prepareObjects objects colors = Returns converted ∧
    ∀ csg p, converted !! 0 = Some csg → p ∈ polygons csg →
      shared_color p =
      Some (mkSharedColor (Num 0) (Num 1) (Num 0) (Some (Num 1))).
Proof.
  intros objects colors.
  assert (stands_alone objects colors 0) as Halone.
  { intros [|[|j]] c' Hj Hcolor; [lia|discriminate|discriminate Hcolor]. }
  split_and!; [reflexivity|reflexivity|exact Halone|].
  destruct (dispatch_color_opaque objects colors 0
              (GeomCSG unit_square) green_glass eq_refl eq_refl Halone)
    as (converted & csg & Hconv & _ & _ & Hall).
  exists converted. split; [exact Hconv|].
  apply Hall. reflexivity.
Defined.
End Examples.

(** * More on the import *)

Ltac euclid n k :=
  pose proof (Nat.div_mod_eq n k);
  pose proof (Nat.mod_upper_bound n k ltac:(lia)).

Section ImportBounds.
Context {num : Type} `{MathIndex num}.
Implicit Types (vertices : list nat) (vectors : list num).

Lemma getVertex_defined vertices vectors x i :
  vertices !! x = Some i → i * 3 + 2 < length vectors →
  ∃ a b c, vectors !! (i * 3) = Some a ∧ vectors !! (i * 3 + 1) = Some b ∧
           vectors !! (i * 3 + 2) = Some c ∧
           getVertex vertices vectors x =
           mkVertex (Vector_new (Some a) (Some b) (Some c)).
Proof.
  intros Hx Hi.
  destruct (lookup_lt_is_Some_2 vectors (i * 3)) as [a Ha]; [lia|].
  destruct (lookup_lt_is_Some_2 vectors (i * 3 + 1)) as [b Hb]; [lia|].
  destruct (lookup_lt_is_Some_2 vectors (i * 3 + 2)) as [c Hc]; [lia|].
  exists a, b, c. split_and!; try done.
  unfold getVertex, getVector. rewrite Hx. cbn [mbind option_bind].
  by rewrite Nat.add_0_r, Ha, Hb, Hc.
Qed.

Lemma getVertex_undefined vertices vectors x :
  length vertices ≤ x →
  getVertex vertices vectors x = mkVertex (Vector_new None None None).
Proof.
  intros Hx. unfold getVertex, getVector.
  by rewrite (lookup_ge_None_2 vertices x Hx).
Qed.

Lemma getVertex2_defined vectors x :
  x + 2 < length vectors →
  ∃ a b c, vectors !! x = Some a ∧ vectors !! (x + 1) = Some b ∧
           vectors !! (x + 2) = Some c ∧
           getVertex2 vectors x =
           mkVertex (Vector_new (Some a) (Some b) (Some c)).
Proof.
  intros Hx.
  destruct (lookup_lt_is_Some_2 vectors x) as [a Ha]; [lia|].
  destruct (lookup_lt_is_Some_2 vectors (x + 1)) as [b Hb]; [lia|].
  destruct (lookup_lt_is_Some_2 vectors (x + 2)) as [c Hc]; [lia|].
  exists a, b, c. split_and!; try done.
  unfold getVertex2. by rewrite Ha, Hb, Hc.
Qed.

(** What the import returns for a buffer geometry. *)
Lemma importThreeGeometry_buffer (geometry : BufferGeometry num) :
  let vectors := attr_position geometry in
  ∃ csg,
    importThreeGeometry (GeomBuffer geometry) = Returns csg ∧
    match index geometry with
    | Some ((_ :: _) as vertices) =>
        length (polygons csg) = (length vertices + 2) / 3 ∧
        ∀ t, t < (length vertices + 2) / 3 →
             polygons csg !! t =
             Some (Polygon_new (getVertexes vertices vectors (t * 3)))
    | _ =>
        length (polygons csg) = (length vectors + 8) / 9 ∧
        ∀ t, t < (length vectors + 8) / 9 →
             polygons csg !! t =
             Some (Polygon_new [getVertex2 vectors (t * 9);
                                getVertex2 vectors (t * 9 + 3);
                                getVertex2 vectors (t * 9 + 6)])
    end.
Proof.
  intros vectors. unfold importThreeGeometry. fold vectors.
  destruct (index geometry) as [[|i vertices]|];
    cbn [default from_option id];
    (rewrite bool_decide_eq_true_2 by done) ||
    (rewrite bool_decide_eq_false_2 by done);
    (eexists; split; [reflexivity|]);
    cbn [polygons];
    (split; [rewrite length_fmap, strides_length; reflexivity|]);
    intros t Ht; rewrite list_lookup_fmap, strides_lookup by exact Ht;
    reflexivity.
Qed.

(** X1. An index whose length is a multiple of three and whose entries
    all point at a full position gives one triangle for every three
    entries, and every coordinate the vertex constructor is given is a
    number of the position array: entry [x] of the index becomes the
    vertex of the floats [3i], [3i+1], [3i+2], where [i] is the entry. *)
Theorem import_indexed_in_range (geometry : BufferGeometry num) i0 rest :
  let vertices := i0 :: rest in
  let vectors := attr_position geometry in
  index geometry = Some vertices →
  length vertices mod 3 = 0 →
  Forall (fun i => i * 3 + 2 < length vectors) vertices →
  ∃ csg,
    importThreeGeometry (GeomBuffer geometry) = Returns csg ∧
    length (polygons csg) = length vertices / 3 ∧
    (∀ t, t < length vertices / 3 →
          polygons csg !! t =
          Some (Polygon_new [getVertex vertices vectors (t * 3);
                             getVertex vertices vectors (t * 3 + 1);
                             getVertex vertices vectors (t * 3 + 2)])) ∧
    ∀ x, x < length vertices →
      ∃ i a b c,
        vertices !! x = Some i ∧
        vectors !! (i * 3) = Some a ∧ vectors !! (i * 3 + 1) = Some b ∧
        vectors !! (i * 3 + 2) = Some c ∧
        getVertex vertices vectors x =
        mkVertex (Vector_new (Some a) (Some b) (Some c)).
Proof.
  intros vertices vectors Hindex Hmod Hrange.
  destruct (importThreeGeometry_buffer geometry) as (csg & Himport & Hcsg).
  rewrite Hindex in Hcsg. fold vertices vectors in Hcsg.
  destruct Hcsg as [Hlen Hpoly].
  assert ((length vertices + 2) / 3 = length vertices / 3) as Hdiv.
  { euclid (length vertices) 3. euclid (length vertices + 2) 3. lia. }
  rewrite Hdiv in Hlen, Hpoly.
  exists csg. split_and!; try done.
  intros x Hx.
  destruct (lookup_lt_is_Some_2 vertices x Hx) as [i Hi].
  rewrite Forall_lookup in Hrange.
  destruct (getVertex_defined vertices vectors x i Hi (Hrange _ _ Hi))
    as (a & b & c & ?).
  by exists i, a, b, c.
Qed.

(** X2. Without an index (or with an empty one) and with a number of
    floats that is a multiple of nine, every nine floats give a triangle,
    each of its vertices made of three consecutive floats, all of them
    numbers of the array. *)
Theorem import_soup_in_range (geometry : BufferGeometry num) :
  let vectors := attr_position geometry in
  default [] (index geometry) = [] →
  length vectors mod 9 = 0 →
  ∃ csg,
    importThreeGeometry (GeomBuffer geometry) = Returns csg ∧
    length (polygons csg) = length vectors / 9 ∧
    ∀ t, t < length vectors / 9 →
      polygons csg !! t =
        Some (Polygon_new [getVertex2 vectors (t * 9);
                           getVertex2 vectors (t * 9 + 3);
                           getVertex2 vectors (t * 9 + 6)]) ∧
      ∀ k, k < 3 →
        ∃ a b c,
          vectors !! (t * 9 + k * 3) = Some a ∧
          vectors !! (t * 9 + k * 3 + 1) = Some b ∧
          vectors !! (t * 9 + k * 3 + 2) = Some c ∧
          getVertex2 vectors (t * 9 + k * 3) =
          mkVertex (Vector_new (Some a) (Some b) (Some c)).
Proof.
  intros vectors Hindex Hmod.
  destruct (importThreeGeometry_buffer geometry) as (csg & Himport & Hcsg).
  fold vectors in Hcsg.
  assert ((length vectors + 8) / 9 = length vectors / 9) as Hdiv.
  { euclid (length vectors) 9. euclid (length vectors + 8) 9. lia. }
  assert (length (polygons csg) = length vectors / 9 ∧
          ∀ t, t < length vectors / 9 →
               polygons csg !! t =
               Some (Polygon_new [getVertex2 vectors (t * 9);
                                  getVertex2 vectors (t * 9 + 3);
                                  getVertex2 vectors (t * 9 + 6)]))
    as [Hlen Hpoly].
  { destruct (index geometry) as [[|? ?]|]; try done;
      by rewrite Hdiv in Hcsg. }
  exists csg. split_and!; try done.
  intros t Ht. split; [by apply Hpoly|].
  intros k Hk. apply getVertex2_defined.
  euclid (length vectors) 9. lia.
Qed.

(** X3. An index whose length is not a multiple of three is not cut
    short: after the full triangles comes one more, whose last vertex is
    made of three [undefined] coordinates. *)
Theorem import_partial_triangle (geometry : BufferGeometry num) vertices :
  let vectors := attr_position geometry in
  let full := length vertices / 3 in
  index geometry = Some vertices →
  length vertices mod 3 ≠ 0 →
  ∃ csg,
    importThreeGeometry (GeomBuffer geometry) = Returns csg ∧
    length (polygons csg) = full + 1 ∧
    polygons csg !! full =
    Some (Polygon_new [getVertex vertices vectors (full * 3);
                       getVertex vertices vectors (full * 3 + 1);
                       mkVertex (Vector_new None None None)]).
Proof.
  intros vectors full Hindex Hmod.
  destruct (importThreeGeometry_buffer geometry) as (csg & Himport & Hcsg).
  rewrite Hindex in Hcsg. fold vectors in Hcsg.
  destruct vertices as [|i0 rest]; [done|].
  set (vertices := i0 :: rest) in *.
  destruct Hcsg as [Hlen Hpoly].
  assert ((length vertices + 2) / 3 = full + 1 ∧
          length vertices ≤ full * 3 + 2) as [Hdiv Hlast].
  { subst full. euclid (length vertices) 3. euclid (length vertices + 2) 3. lia. }
  rewrite Hdiv in Hlen, Hpoly.
  exists csg. split_and!; try done.
  rewrite (Hpoly full) by lia. unfold getVertexes.
  by rewrite (getVertex_undefined vertices vectors (full * 3 + 2)).
Qed.
End ImportBounds.

(** * More on the grouping *)

Lemma StronglySorted_filter {A} (R : relation A) (P : A → Prop)
    `{!∀ a, Decision (P a)} (l : list A) :
  StronglySorted R l → StronglySorted R (filter P l).
Proof.
  induction l as [|a l IH]; [done|].
  rewrite StronglySorted_cons. intros [Ha Hl]. rewrite filter_cons.
  destruct (decide (P a)); [|by apply IH].
  apply StronglySorted_cons. split; [|by apply IH].
  rewrite Forall_forall in Ha |- *.
  intros b [_ Hb]%list_elem_of_filter. by apply Ha.
Qed.

Lemma filter_none {A} (P : A → Prop) `{!∀ a, Decision (P a)} (l : list A) :
  (∀ a, a ∈ l → ¬ P a) → filter P l = [].
Proof.
  induction l as [|a l IH]; [done|]. intros Hl.
  rewrite filter_cons_False by (apply Hl; left).
  apply IH. intros b Hb. apply Hl. by right.
Qed.

Lemma StronglySorted_seq first n : StronglySorted lt (seq first n).
Proof.
  revert first. induction n as [|n IH]; intros first; [constructor|].
  cbn [seq]. apply StronglySorted_cons. split; [|apply IH].
  apply Forall_forall. intros j [Hj _]%elem_of_seq. lia.
Qed.

Section GreedyFacts.
Variable close : nat → nat → bool.

Lemma greedyGroups_elem rounds l group j :
  group ∈ greedyGroups rounds close l → j ∈ group → j ∈ l.
Proof.
  revert l. induction rounds as [|rounds IH]; intros [|i later];
    cbn [greedyGroups]; try by intros ?%elem_of_nil.
  intros [->|Hgroup]%elem_of_cons Hj.
  - apply elem_of_cons in Hj as [->|Hj]; [left|right].
    by apply list_elem_of_filter in Hj as [_ ?].
  - right. apply (IH _ Hgroup) in Hj.
    by apply list_elem_of_filter in Hj as [_ ?].
Qed.

Lemma greedyGroups_seed rounds l group :
  StronglySorted lt l → group ∈ greedyGroups rounds close l →
  ∃ i rest, group = i :: rest ∧
            Forall (fun j => i < j ∧ close i j = true) rest.
Proof.
  revert l. induction rounds as [|rounds IH]; intros [|i later];
    cbn [greedyGroups]; try by intros _ ?%elem_of_nil.
  intros [Hi Hlater]%StronglySorted_cons [->|Hgroup]%elem_of_cons.
  - eexists _, _. split; [done|]. rewrite Forall_forall in Hi |- *.
    intros j [Hc Hj]%list_elem_of_filter. split; [by apply Hi|done].
  - eapply IH; [|done]. by apply StronglySorted_filter.
Qed.

Lemma greedyGroups_rejected rounds l a b i rest group j :
  greedyGroups rounds close l !! a = Some (i :: rest) →
  greedyGroups rounds close l !! b = Some group →
  a < b → j ∈ group → close i j = false.
Proof.
  revert l a b. induction rounds as [|rounds IH]; intros [|i' later] a b;
    cbn [greedyGroups]; try done.
  intros Ha Hb Hab Hj. destruct b as [|b]; [lia|]. cbn in Hb.
  destruct a as [|a].
  - injection Ha as -> _.
    apply list_elem_of_lookup_2 in Hb.
    apply (greedyGroups_elem _ _ _ _ Hb) in Hj.
    apply list_elem_of_filter in Hj as [Hc _].
    by destruct (close i j).
  - cbn in Ha. eapply IH; [exact Ha|exact Hb|lia|done].
Qed.

Lemma greedyGroups_all rounds i later :
  (∀ j, j ∈ later → close i j = true) →
  greedyGroups (S rounds) close (i :: later) = [i :: later].
Proof.
  intros Hall. cbn [greedyGroups]. rewrite filter_all by done.
  rewrite filter_none; [by destruct rounds|].
  intros j Hj Hc. by apply Hc, Hall.
Qed.

Lemma greedyGroups_none rounds l :
  length l ≤ rounds → StronglySorted lt l →
  (∀ i j, i ∈ l → j ∈ l → i < j → close i j = false) →
  greedyGroups rounds close l = (fun i => [i]) <$> l.
Proof.
  revert l. induction rounds as [|rounds IH]; intros [|i later] Hlen Hs Hnone;
    cbn [greedyGroups]; simpl in Hlen; try done; try lia.
  apply StronglySorted_cons in Hs as [Hi Hs]. rewrite Forall_forall in Hi.
  assert (filter (fun j => close i j = true) later = []) as ->.
  { apply filter_none. intros j Hj Hc.
    rewrite (Hnone i j) in Hc; [done|left|by right|by apply Hi]. }
  rewrite filter_all.
  - rewrite fmap_cons, IH; [done|lia|done|].
    intros i' j Hi' Hj. apply Hnone; by right.
  - intros j Hj.
    rewrite (Hnone i j); [done|left|by right|by apply Hi].
Qed.
End GreedyFacts.

Section GroupingTheorems.
Context {num : Type} `{Numerics num}.
Implicit Types (smoothingAngle : num) (normals : list (Vector3 num)).

Lemma within_true smoothingAngle normals i j :
  within smoothingAngle normals i j = true →
  ∃ iNorm jNorm, normals !! i = Some iNorm ∧ normals !! j = Some jNorm ∧
                 num_le (V3_angleTo iNorm jNorm) smoothingAngle = true.
Proof.
  unfold within. destruct (normals !! i) as [iNorm|]; [|done].
  destruct (normals !! j) as [jNorm|]; [|done]. eauto.
Qed.

Lemma within_false smoothingAngle normals i j iNorm jNorm :
  within smoothingAngle normals i j = false →
  normals !! i = Some iNorm → normals !! j = Some jNorm →
  num_le (V3_angleTo iNorm jNorm) smoothingAngle = false.
Proof. unfold within. intros Hw Hi Hj. by rewrite Hi, Hj in Hw. Qed.

Lemma within_lookup smoothingAngle normals i j iNorm jNorm :
  normals !! i = Some iNorm → normals !! j = Some jNorm →
  within smoothingAngle normals i j =
  num_le (V3_angleTo iNorm jNorm) smoothingAngle.
Proof. unfold within. by intros -> ->. Qed.

Lemma groupNormals_around_first smoothingAngle normals :
  normals ≠ [] →
  (∀ j, 0 < j < length normals → within smoothingAngle normals 0 j = true) →
  groupNormals smoothingAngle normals = [seq 0 (length normals)].
Proof.
  intros Hnormals Hall. rewrite groupNormals_greedy. unfold smoothingGroups.
  destruct normals as [|n0 normals']; [done|].
  set (normals := n0 :: normals') in *.
  change (length normals) with (S (length normals')) in *. cbn [seq].
  apply greedyGroups_all. intros j [Hj1 Hj2]%elem_of_seq.
  apply Hall. lia.
Qed.

Lemma groupNormals_alone smoothingAngle normals :
  (∀ i j, i < j < length normals →
          within smoothingAngle normals i j = false) →
  groupNormals smoothingAngle normals =
  (fun i => [i]) <$> seq 0 (length normals).
Proof.
  intros Hnone. rewrite groupNormals_greedy. unfold smoothingGroups.
  apply greedyGroups_none.
  - by rewrite length_seq.
  - apply StronglySorted_seq.
  - intros i j _ [_ Hj]%elem_of_seq Hij. apply Hnone. lia.
Qed.

(** X4. A group starts with its seed, the lowest of its instances, and
    the normal of every other member is within the smoothing angle of the
    normal of the seed. *)
Theorem group_members_within_seed smoothingAngle normals group :
  group ∈ groupNormals smoothingAngle normals →
  ∃ i rest,
    group = i :: rest ∧
    ∀ j, j ∈ rest →
      i < j ∧
      ∃ iNorm jNorm,
        normals !! i = Some iNorm ∧ normals !! j = Some jNorm ∧
        num_le (V3_angleTo iNorm jNorm) smoothingAngle = true.
Proof.
  rewrite groupNormals_greedy. unfold smoothingGroups. intros Hgroup.
  destruct (greedyGroups_seed _ _ _ _ (StronglySorted_seq 0 _) Hgroup)
    as (i & rest & -> & Hrest).
  exists i, rest. split; [done|]. rewrite Forall_forall in Hrest.
  intros j [Hij Hc]%Hrest. split; [done|]. by apply within_true.
Qed.

(** X5. Hard edges are kept: no instance of a later group is within the
    smoothing angle of the seed of an earlier group. *)
Theorem later_groups_beyond_seed smoothingAngle normals a b i rest group j
    iNorm jNorm :
  groupNormals smoothingAngle normals !! a = Some (i :: rest) →
  groupNormals smoothingAngle normals !! b = Some group →
  a < b → j ∈ group →
  normals !! i = Some iNorm → normals !! j = Some jNorm →
  num_le (V3_angleTo iNorm jNorm) smoothingAngle = false.
Proof.
  rewrite groupNormals_greedy. unfold smoothingGroups.
  intros Ha Hb Hab Hj Hi Hjn.
  eapply within_false; [|done..].
  eapply greedyGroups_rejected; [exact Ha|exact Hb|done..].
Qed.

(** X6. When every other normal of a bucket is within the smoothing
    angle of the first one, the bucket is one group, whatever the angles
    between the other normals are. *)
Theorem one_group_around_first smoothingAngle normals first :
  normals !! 0 = Some first →
  (∀ j jNorm, 0 < j → normals !! j = Some jNorm →
              num_le (V3_angleTo first jNorm) smoothingAngle = true) →
  groupNormals smoothingAngle normals = [seq 0 (length normals)].
Proof.
  intros Hfirst Hall. apply groupNormals_around_first.
  - intros ->. discriminate Hfirst.
  - intros j [Hj Hlen].
    destruct (lookup_lt_is_Some_2 normals j Hlen) as [jNorm HjNorm].
    rewrite (within_lookup _ _ _ _ _ _ Hfirst HjNorm). by apply (Hall j).
Qed.

(** X7. When no two normals of a bucket are within the smoothing angle
    of each other (taking the lower instance first), every instance is a
    group of its own. *)
Theorem every_instance_alone smoothingAngle normals :
  (∀ i j iNorm jNorm, i < j →
     normals !! i = Some iNorm → normals !! j = Some jNorm →
     num_le (V3_angleTo iNorm jNorm) smoothingAngle = false) →
  groupNormals smoothingAngle normals =
  (fun i => [i]) <$> seq 0 (length normals).
Proof.
  intros Hnone. apply groupNormals_alone. intros i j [Hij Hlen].
  destruct (lookup_lt_is_Some_2 normals i) as [iNorm HiNorm]; [lia|].
  destruct (lookup_lt_is_Some_2 normals j Hlen) as [jNorm HjNorm].
  rewrite (within_lookup _ _ _ _ _ _ HiNorm HjNorm). by apply (Hnone i j).
Qed.
End GroupingTheorems.

(** * More on the export *)

Lemma filter_head_split {A} (P : A → Prop) `{!∀ a, Decision (P a)}
    (l : list A) a0 rest :
  filter P l = a0 :: rest →
  ∃ before after, l = before ++ a0 :: after ∧ P a0 ∧
                  Forall (fun a => ¬ P a) before.
Proof.
  induction l as [|a l IH]; [done|]. rewrite filter_cons.
  destruct (decide (P a)) as [Ha|Ha].
  - intros [= -> _]. by exists [], l.
  - intros (before & after & -> & ? & ?)%IH.
    exists (a :: before), after. split_and!; [done|done|by constructor].
Qed.

Lemma filter_fmap_comm {A B} (f : A → B) (P : B → Prop) (Q : A → Prop)
    `{!∀ b, Decision (P b)} `{!∀ a, Decision (Q a)} (l : list A) :
  (∀ a, P (f a) ↔ Q a) → filter P (f <$> l) = f <$> filter Q l.
Proof.
  intros HPQ. induction l as [|a l IH]; [done|].
  rewrite fmap_cons, !filter_cons.
  destruct (decide (P (f a))) as [Ha|Ha], (decide (Q a)) as [Hb|Hb];
    rewrite ?fmap_cons, IH; try done; by apply HPQ in Ha || apply HPQ in Hb.
Qed.

Section ExportShape.
Context {num : Type} `{Numerics num}.
Implicit Types (csg : CSG num) (c : Corner num) (smoothingAngle : num)
  (p : Polygon num) (ps : list (Polygon num)) (cs l : list (Corner num)).

(** The export, in terms of the corners of the mesh. *)
Lemma exportCSG_corners csg smoothingAngle :
  exportCSG csg smoothingAngle =
  let ps := polygons csg in
  let out := foldl emitOne
               (mkOutState [] [] [] (replicate (faceCount ps) [0; 0; 0]))
               (emitted smoothingAngle (buckets (corners ps))) in
  {| attr_position := fround <$> os_vertices out;
     attr_normal := Some (fround <$> os_normalVecs out);
     attr_color :=
       if existsb declaresColor ps then Some (fround <$> os_colors out)
       else None;
     index := Some (flattenFaces (os_faces out)) |}.
Proof.
  unfold exportCSG. rewrite buildVertexMap_buckets.
  cbn [bs_vertexMap bs_faces bs_colorsUsed].
  by rewrite foldl_emitEntry.
Qed.

Lemma emittedEntry_vertex smoothingAngle (e : VertexEntry num) c :
  c ∈ emittedEntry smoothingAngle e → c_vertex c = ve_vertex e.
Proof.
  unfold emittedEntry, emittedGroup.
  intros (group & Hc & _)%list_elem_of_bind.
  apply list_elem_of_omap in Hc as (j & _ & Hj).
  destruct (ve_colours e !! j); [|done].
  destruct (ve_faces e !! j) as [[? ?]|]; [|done].
  by injection Hj as <-.
Qed.

Lemma emittedEntry_length smoothingAngle l :
  length (emittedEntry smoothingAngle (entryOf l)) = length l.
Proof.
  by rewrite <- (length_fmap c_ref), emittedEntry_refs, length_fmap.
Qed.

Lemma emittedEntry_vertices smoothingAngle l :
  c_vertex <$> emittedEntry smoothingAngle (entryOf l) =
  replicate (length (ve_faces (entryOf l))) (ve_vertex (entryOf l)).
Proof.
  symmetry. apply replicate_as_Forall_2.
  - cbn [entryOf ve_faces]. by rewrite !length_fmap, emittedEntry_length.
  - apply Forall_fmap, Forall_forall. intros c Hc.
    symmetry. exact (emittedEntry_vertex _ _ _ Hc).
Qed.

Lemma emitted_vertices smoothingAngle cs :
  c_vertex <$> emitted smoothingAngle (buckets cs) =
  buckets cs ≫= fun vertexObj =>
    replicate (length (ve_faces vertexObj.2)) (ve_vertex vertexObj.2).
Proof.
  unfold emitted. rewrite fmap_bind_list.
  rewrite (buckets_bind (fun e => c_vertex <$> emittedEntry smoothingAngle e)),
          (buckets_bind (fun e => replicate (length (ve_faces e)) (ve_vertex e))).
  apply list_bind_ext; [|done]. intros k. apply emittedEntry_vertices.
Qed.

Lemma forallb_bool_decide {A} (P : A → Prop) `{!∀ a, Decision (P a)}
    (l : list A) :
  Forall P l → forallb (fun a => bool_decide (P a)) l = true.
Proof.
  induction 1 as [|a l Ha _ IH]; [done|].
  cbn [forallb]. by rewrite bool_decide_eq_true_2, IH.
Qed.

(** X8. With [CSG] bound to the class of the meshes, what the export
    returns for a mesh passes the checks that the specification asks of
    an indexed geometry: the number of indices and the number of position
    floats are multiples of three and every index is below the number of
    vertices. The normal buffer is as long as the position buffer, nine
    floats for every triangle. *)
Theorem export_well_formed global_CSG csg (angle : option num) :
  global_CSG = meshClass →
  ∃ out,
    exportThreeGeometry global_CSG (GeomCSG csg) angle =
      Returns (GeomBuffer out) ∧
    well_formed_buffer out = true ∧
    length (attr_position out) = 9 * triangleCount out ∧
    ∃ normal, attr_normal out = Some normal ∧
              length normal = length (attr_position out).
Proof.
  intros ->. set (smoothingAngle := default defaultSmoothingAngle angle).
  exists (exportCSG csg smoothingAngle).
  split; [apply exportThreeGeometry_mesh|].
  set (out := exportCSG csg smoothingAngle).
  pose proof (triangleCount_export csg smoothingAngle) as HT.
  pose proof (vertexCount_export csg smoothingAngle) as HV.
  destruct (export_indices_permutation csg smoothingAngle)
    as (indices' & Hindex' & Hperm).
  destruct (exportCSG_emitted csg smoothingAngle)
    as (Hpos & Hnormal & _ & indices & Hindex & Hlen & _).
  fold out in HT, HV, Hindex', Hperm, Hpos, Hnormal, Hindex.
  assert (indices' = indices) as -> by congruence.
  assert (length (attr_position out) = 9 * faceCount (polygons csg)) as HP.
  { rewrite Hpos, length_fmap, (length_bind_const _ 3) by done.
    rewrite emitted_length. lia. }
  split_and!.
  - unfold well_formed_buffer. rewrite Hindex.
    rewrite !andb_true_iff. split_and!.
    + apply bool_decide_eq_true_2. rewrite Hlen, Nat.mul_comm.
      apply Nat.Div0.mod_mul.
    + apply bool_decide_eq_true_2. rewrite HP.
      replace (9 * faceCount (polygons csg))
        with (3 * faceCount (polygons csg) * 3) by lia.
      apply Nat.Div0.mod_mul.
    + apply forallb_bool_decide. apply Forall_forall. intros i Hi.
      rewrite Hperm in Hi. apply elem_of_seq in Hi. unfold vertexCount in Hi.
      lia.
  - by rewrite HT.
  - eexists. split; [done|].
    rewrite Hpos, !length_fmap, !(length_bind_const _ 3); done.
Qed.

(** X9. With [CSG] bound to the class of the meshes, the position
    buffer of what the export returns holds, bucket after bucket in the
    order in which the keys were first met, the 32-bit rounding of the
    position kept by the bucket once for every corner that fell in it. It
    does not depend on the smoothing angle. *)
Theorem position_buffer_ignores_angle global_CSG csg (angle angle' : option num) :
  global_CSG = meshClass →
  ∃ out out',
    exportThreeGeometry global_CSG (GeomCSG csg) angle =
      Returns (GeomBuffer out) ∧
    exportThreeGeometry global_CSG (GeomCSG csg) angle' =
      Returns (GeomBuffer out') ∧
    attr_position out =
      fround <$>
        (bs_vertexMap (buildVertexMap (polygons csg)) ≫= fun vertexObj =>
           replicate (length (ve_faces vertexObj.2)) (ve_vertex vertexObj.2)
             ≫= xyz) ∧
    attr_position out = attr_position out'.
Proof.
  intros ->.
  assert (∀ a, attr_position (exportCSG csg a) =
    fround <$>
      (bs_vertexMap (buildVertexMap (polygons csg)) ≫= fun vertexObj =>
         replicate (length (ve_faces vertexObj.2)) (ve_vertex vertexObj.2)
           ≫= xyz)) as Hclosed.
  { intros a. destruct (exportCSG_emitted csg a) as (-> & _).
    rewrite buildVertexMap_buckets. cbn [bs_vertexMap]. f_equal.
    rewrite <- (list_fmap_bind c_vertex xyz), emitted_vertices.
    generalize (buckets (corners (polygons csg))).
    intros vm. induction vm as [|vertexObj vm IH]; [done|].
    by rewrite !bind_cons, bind_app, IH. }
  eexists _, _. split; [apply exportThreeGeometry_mesh|].
  split; [apply exportThreeGeometry_mesh|].
  split; [apply Hclosed|]. by rewrite !Hclosed.
Qed.

(** X10. With [CSG] bound to the class of the meshes, the position that
    a corner is given in what the export returns is the 32-bit rounding
    of the position of the first corner of the mesh with the same key:
    the positions of the corners that reach a bucket later are not
    used. *)
Theorem bucket_keeps_first_position global_CSG csg (angle : option num) c :
  let cs := corners (polygons csg) in
  global_CSG = meshClass →
  c ∈ cs →
  ∃ out before first after k indices,
    exportThreeGeometry global_CSG (GeomCSG csg) angle =
      Returns (GeomBuffer out) ∧
    cs = before ++ first :: after ∧
    c_key first = c_key c ∧
    Forall (fun c' => c_key c' ≠ c_key c) before ∧
    index out = Some indices ∧
    indices !! (3 * c_face c + c_idx c) = Some k ∧
    triple (attr_position out) k = fround <$> xyz (c_vertex first).
Proof.
  intros cs -> Hc. set (smoothingAngle := default defaultSmoothingAngle angle).
  set (out := exportCSG csg smoothingAngle).
  destruct (corner_group smoothingAngle cs c Hc) as (group & j & Hg & Hj & Hl).
  destruct (export_member csg smoothingAngle c group j Hg Hj Hl)
    as (k & indices & normal & Hindex & _ & Hk & _ & Hpos & _).
  destruct (bucket_vertex cs (c_key c)) as (first & rest & Hb & Hv & Hkey & _).
  { by apply list_elem_of_fmap_2. }
  destruct (filter_head_split _ _ _ _ Hb) as (before & after & Hcs & _ & Hbefore).
  exists out, before, first, after, k, indices. split_and!; try done.
  fold cs in Hpos. by rewrite <- Hv.
Qed.

Lemma cornersFrom_proper face0 ps :
  cornersFrom face0 (filter (fun p => 3 ≤ length (vertices p)) ps) =
  cornersFrom face0 ps.
Proof.
  revert face0. induction ps as [|p ps IH]; intros face0; [done|].
  rewrite filter_cons. destruct (decide (3 ≤ length (vertices p))) as [Hp|Hp].
  - cbn [cornersFrom]. by rewrite IH.
  - cbn [cornersFrom]. rewrite IH.
    replace (length (vertices p) - 2) with 0 by lia.
    unfold polygonCorners.
    replace (length (vertices p) - 2) with 0 by lia.
    by rewrite Nat.add_0_r.
Qed.

Lemma faceCount_proper ps :
  faceCount (filter (fun p => 3 ≤ length (vertices p)) ps) = faceCount ps.
Proof.
  unfold faceCount. induction ps as [|p ps IH]; [done|].
  rewrite filter_cons. destruct (decide (3 ≤ length (vertices p))).
  - rewrite !fmap_cons. cbn [sum_list sum_list_with]. by rewrite IH.
  - rewrite fmap_cons. cbn [sum_list sum_list_with]. rewrite IH. unfold id. lia.
Qed.

(** X11. With [CSG] bound to the class of the meshes, polygons of fewer
    than three vertices are passed over in silence: the positions, the
    normals and the index of what the export returns are those of the
    mesh without them. Only their colour is looked at: the colour buffer
    of the mesh without them, if there is one, is the colour buffer of the
    mesh. *)
Theorem degenerate_polygons_dropped global_CSG csg (angle : option num) :
  let proper :=
    mkCSG (filter (fun p => 3 ≤ length (vertices p)) (polygons csg))
          (isCanonicalized csg) (isRetesselated csg) in
  global_CSG = meshClass →
  ∃ out out',
    exportThreeGeometry global_CSG (GeomCSG csg) angle =
      Returns (GeomBuffer out) ∧
    exportThreeGeometry global_CSG (GeomCSG proper) angle =
      Returns (GeomBuffer out') ∧
    attr_position out = attr_position out' ∧
    attr_normal out = attr_normal out' ∧
    index out = index out' ∧
    ∀ colors, attr_color out' = Some colors → attr_color out = Some colors.
Proof.
  intros proper ->. eexists _, _.
  split; [apply exportThreeGeometry_mesh|].
  split; [apply exportThreeGeometry_mesh|].
  rewrite !exportCSG_corners. subst proper. cbn [polygons]. cbn zeta.
  unfold corners. rewrite cornersFrom_proper, faceCount_proper.
  cbn [attr_position attr_normal attr_color index].
  split_and!; try done.
  intros colors.
  destruct (existsb declaresColor (filter _ _)) eqn:Hex; [|done].
  apply existsb_declaresColor in Hex as (p & Hp & Hd).
  apply list_elem_of_filter in Hp as [_ Hp].
  assert (existsb declaresColor (polygons csg) = true) as ->; [|done].
  apply existsb_declaresColor. by exists p.
Qed.
End ExportShape.

(** * Colours and the geometry of the output *)

Section ColourBlind.
Context {num : Type} `{Numerics num}.
Implicit Types (csg : CSG num) (c : Corner num) (smoothingAngle : num)
  (p q : Polygon num) (ps qs : list (Polygon num)) (cs l : list (Corner num))
  (E : list (Corner num)) (st : OutState num).

Lemma uncoloured_faceCorners p q face x :
  vertices p = vertices q → plane_normal p = plane_normal q →
  uncoloured <$> faceCorners p face x = uncoloured <$> faceCorners q face x.
Proof.
  intros Hv Hn. unfold faceCorners. rewrite Hv, Hn.
  change (imap pair [0; x + 1; x + 2]) with [(0, 0); (1, x + 1); (2, x + 2)].
  cbn [omap list_omap].
  destruct (vertices q !! 0), (vertices q !! (x + 1)),
    (vertices q !! (x + 2)); done.
Qed.

Lemma uncoloured_polygonCorners p q face0 :
  vertices p = vertices q → plane_normal p = plane_normal q →
  uncoloured <$> polygonCorners p face0 = uncoloured <$> polygonCorners q face0.
Proof.
  intros Hv Hn. unfold polygonCorners. rewrite !fmap_bind_list, Hv.
  apply list_bind_ext; [|done]. intros x.
  by apply uncoloured_faceCorners.
Qed.

Lemma uncoloured_cornersFrom ps : ∀ qs face0,
  vertices <$> ps = vertices <$> qs →
  plane_normal <$> ps = plane_normal <$> qs →
  uncoloured <$> cornersFrom face0 ps = uncoloured <$> cornersFrom face0 qs.
Proof.
  induction ps as [|p ps IH]; intros [|q qs] face0 Hv Hn; try done.
  rewrite !fmap_cons in Hv. rewrite !fmap_cons in Hn.
  injection Hv as Hv Hvs. injection Hn as Hn Hns.
  cbn [cornersFrom]. rewrite !fmap_app.
  rewrite (uncoloured_polygonCorners p q) by done.
  by rewrite Hv, (IH qs).
Qed.

Lemma faceCount_shape ps qs :
  vertices <$> ps = vertices <$> qs → faceCount ps = faceCount qs.
Proof.
  intros Hv. unfold faceCount.
  change (fun polygon : Polygon num => length (vertices polygon) - 2)
    with ((fun vs : list (Vertex num) => length vs - 2) ∘ vertices).
  by rewrite !list_fmap_compose, Hv.
Qed.

Lemma uncoloured_key cs : c_key <$> (uncoloured <$> cs) = c_key <$> cs.
Proof. rewrite <- list_fmap_compose. by apply list_fmap_ext. Qed.

Lemma uncoloured_bucketOf cs k :
  bucketOf (uncoloured <$> cs) k = uncoloured <$> bucketOf cs k.
Proof. unfold bucketOf. by apply filter_fmap_comm. Qed.

Lemma uncoloured_emittedEntry smoothingAngle l :
  emittedEntry smoothingAngle (entryOf (uncoloured <$> l)) =
  uncoloured <$> emittedEntry smoothingAngle (entryOf l).
Proof.
  unfold emittedEntry. rewrite fmap_bind_list.
  assert (c_normal <$> (uncoloured <$> l) = c_normal <$> l) as Hnormals.
  { rewrite <- list_fmap_compose. by apply list_fmap_ext. }
  cbn [entryOf ve_normals]. rewrite Hnormals.
  apply list_bind_ext; [|done]. intros group.
  rewrite !emittedGroup_entryOf, Hnormals.
  assert (ve_vertex (entryOf (uncoloured <$> l)) = ve_vertex (entryOf l))
    as -> by (by destruct l).
  generalize (averageNormal (c_normal <$> l) group) (ve_vertex (entryOf l)).
  intros normal vertex.
  induction group as [|j group IH]; [done|].
  cbn [omap list_omap]. rewrite list_lookup_fmap.
  destruct (l !! j) as [c|]; cbn [fmap option_fmap option_map];
    by rewrite ?fmap_cons, IH.
Qed.

Lemma uncoloured_emitted smoothingAngle cs :
  emitted smoothingAngle (buckets (uncoloured <$> cs)) =
  uncoloured <$> emitted smoothingAngle (buckets cs).
Proof.
  unfold emitted. rewrite fmap_bind_list.
  rewrite (buckets_bind (emittedEntry smoothingAngle)),
          (buckets_bind (fun e => uncoloured <$> emittedEntry smoothingAngle e)).
  rewrite uncoloured_key. apply list_bind_ext; [|done]. intros k.
  by rewrite uncoloured_bucketOf, uncoloured_emittedEntry.
Qed.

(** The face arrays, the positions and the normals that the emission
    leaves do not depend on the colours of the vertices emitted. *)
Lemma emitOne_uncoloured E : ∀ E' st st',
  uncoloured <$> E = uncoloured <$> E' →
  os_faces st = os_faces st' → os_vertices st = os_vertices st' →
  os_normalVecs st = os_normalVecs st' →
  os_faces (foldl emitOne st E) = os_faces (foldl emitOne st' E') ∧
  os_vertices (foldl emitOne st E) = os_vertices (foldl emitOne st' E') ∧
  os_normalVecs (foldl emitOne st E) = os_normalVecs (foldl emitOne st' E').
Proof.
  induction E as [|c E IH]; intros [|c' E'] st st' HE Hf Hv Hn; try done.
  rewrite !fmap_cons in HE. injection HE as Hface Hidx Hvertex Hnormal HE.
  cbn [foldl]. apply IH; [done|..]; unfold emitOne;
    cbn [os_faces os_vertices os_normalVecs];
    by rewrite ?Hf, ?Hv, ?Hn, ?Hface, ?Hidx, ?Hvertex, ?Hnormal.
Qed.

(** X12. With [CSG] bound to the class of the meshes, the colours of
    the polygons have no part in the geometry of what the export returns:
    two meshes whose polygons have the same vertices and the same normals
    give the same positions, the same normals and the same index,
    whatever the colours of their polygons. *)
Theorem colours_leave_geometry global_CSG csg csg' (angle : option num) :
  global_CSG = meshClass →
  vertices <$> polygons csg = vertices <$> polygons csg' →
  plane_normal <$> polygons csg = plane_normal <$> polygons csg' →
  ∃ out out',
    exportThreeGeometry global_CSG (GeomCSG csg) angle =
      Returns (GeomBuffer out) ∧
    exportThreeGeometry global_CSG (GeomCSG csg') angle =
      Returns (GeomBuffer out') ∧
    attr_position out = attr_position out' ∧
    attr_normal out = attr_normal out' ∧
    index out = index out'.
Proof.
  intros -> Hv Hn. set (smoothingAngle := default defaultSmoothingAngle angle).
  eexists _, _. split; [apply exportThreeGeometry_mesh|].
  split; [apply exportThreeGeometry_mesh|]. fold smoothingAngle.
  rewrite !exportCSG_corners. cbn zeta.
  cbn [attr_position attr_normal index].
  rewrite (faceCount_shape _ _ Hv).
  pose proof (uncoloured_cornersFrom _ _ 0 Hv Hn) as Hcs.
  fold (corners (polygons csg)) (corners (polygons csg')) in Hcs.
  apply (f_equal (fun cs => emitted smoothingAngle (buckets cs))) in Hcs.
  rewrite !uncoloured_emitted in Hcs.
  set (st := mkOutState [] [] [] _).
  destruct (emitOne_uncoloured _ _ st st Hcs eq_refl eq_refl eq_refl)
    as (-> & -> & ->).
  done.
Qed.
(** The colour of a polygon without its alpha. *)
Lemma polygonColor_opaque p q :
  (fun colour => (color0 colour, color1 colour, color2 colour))
    <$> shared_color p =
  (fun colour => (color0 colour, color1 colour, color2 colour))
    <$> shared_color q →
  polygonColor p = polygonColor q ∧ declaresColor p = declaresColor q.
Proof.
  unfold polygonColor, declaresColor.
  destruct (shared_color p), (shared_color q); try done.
  by intros [= -> -> ->].
Qed.

Lemma cornersFrom_opaque ps : ∀ qs face0,
  Forall2 (fun p q =>
             vertices p = vertices q ∧ plane_normal p = plane_normal q ∧
             polygonColor p = polygonColor q ∧
             declaresColor p = declaresColor q) ps qs →
  cornersFrom face0 ps = cornersFrom face0 qs ∧
  faceCount ps = faceCount qs ∧
  existsb declaresColor ps = existsb declaresColor qs.
Proof.
  induction ps as [|p ps IH]; intros qs face0 Hall;
    inversion Hall as [|? q ? qs' (Hv & Hn & Hc & Hd) Hrest]; subst; [done|].
  destruct (IH qs' (face0 + (length (vertices q) - 2)) Hrest)
    as (Hcorners & Hcount & Hdeclares).
  cbn [cornersFrom existsb]. unfold faceCount in *. rewrite !fmap_cons.
  cbn [sum_list sum_list_with]. unfold polygonCorners, faceCorners.
  by rewrite Hv, Hn, Hc, Hd, Hcorners, Hcount, Hdeclares.
Qed.

(** X13. With [CSG] bound to the class of the meshes, the alpha of the
    colour of a polygon is not exported: for two meshes whose polygons
    have the same vertices, the same normals and colours with the same
    first three components, the export returns the same geometry. *)
Theorem alpha_not_exported global_CSG csg csg' (angle : option num) :
  global_CSG = meshClass →
  Forall2 (fun p q =>
             vertices p = vertices q ∧ plane_normal p = plane_normal q ∧
             (fun colour => (color0 colour, color1 colour, color2 colour))
               <$> shared_color p =
             (fun colour => (color0 colour, color1 colour, color2 colour))
               <$> shared_color q)
          (polygons csg) (polygons csg') →
  ∃ out,
    exportThreeGeometry global_CSG (GeomCSG csg) angle =
      Returns (GeomBuffer out) ∧
    exportThreeGeometry global_CSG (GeomCSG csg') angle =
      Returns (GeomBuffer out).
Proof.
  intros -> Hall. eexists. split; [apply exportThreeGeometry_mesh|].
  rewrite exportThreeGeometry_mesh. do 2 f_equal.
  rewrite !exportCSG_corners. cbn zeta. unfold corners.
  destruct (cornersFrom_opaque (polygons csg) (polygons csg') 0)
    as (-> & -> & ->); [|done].
  eapply Forall2_impl; [exact Hall|].
  intros p q (Hv & Hn & Hc).
  destruct (polygonColor_opaque p q Hc). done.
Qed.
End ColourBlind.

(** * The export read back *)

Lemma triple_lookup {A} (buffer : list A) k a b c :
  triple buffer k = [a; b; c] →
  buffer !! (k * 3) = Some a ∧ buffer !! (k * 3 + 1) = Some b ∧
  buffer !! (k * 3 + 2) = Some c.
Proof.
  unfold triple. intros Ht.
  assert (∀ i, i < 3 → buffer !! (k * 3 + i) = [a; b; c] !! i) as Hi.
  { intros i Hi. rewrite <- Ht, lookup_take, lookup_drop.
    rewrite decide_True by done. f_equal. lia. }
  rewrite <- (Nat.add_0_r (k * 3)) at 1.
  by rewrite !Hi by lia.
Qed.

Section ReadBackFacts.
Context {num : Type} `{Numerics num} `{MathIndex num}.
Implicit Types (csg : CSG num) (c : Corner num) (smoothingAngle : num)
  (p : Polygon num) (ps : list (Polygon num)).

(** The vertex that the import makes of the place of a corner in the
    index of the export. *)
Lemma export_getVertex csg smoothingAngle c indices :
  let out := exportCSG csg smoothingAngle in
  c ∈ corners (polygons csg) →
  index out = Some indices →
  ∃ w, ve_vertex <$> vm_lookup (c_key c)
                       (bs_vertexMap (buildVertexMap (polygons csg))) = Some w ∧
       hash w = c_key c ∧
       getVertex indices (attr_position out) (c_face c * 3 + c_idx c) =
       storedVertex w.
Proof.
  intros out Hc Hindex.
  destruct (export_corner csg smoothingAngle c Hc)
    as (e & group & j & k & indices' & normal & He & Hhash & _ & _ & _ & _ & _ &
        Hindex' & _ & Hk & _ & Hpos & _).
  fold out in Hindex', Hpos.
  assert (indices' = indices) as -> by congruence.
  exists (ve_vertex e). split; [by rewrite He|]. split; [done|].
  apply triple_lookup in Hpos as (Hx & Hy & Hz).
  unfold getVertex, getVector, storedVertex.
  replace (c_face c * 3 + c_idx c) with (3 * c_face c + c_idx c) by lia.
  rewrite Hk. cbn [mbind option_bind].
  by rewrite Nat.add_0_r, Hx, Hy, Hz.
Qed.

(** X14. With [CSG] bound to the class of the meshes, importing what
    the export returned for a mesh gives one triangle for every triangle
    of the fans, in the order of the fans. Corner [idx] of triangle [k]
    of a polygon comes back as the vertex made of the 32-bit roundings of
    the coordinates of the position [w] that the bucket of the polygon's
    vertex [fanVertex k idx] keeps; it is [w] itself, before the
    rounding, that has the key of that vertex. *)
Theorem import_of_export global_CSG csg (angle : option num) i p k :
  let ps := polygons csg in
  let kept v := ve_vertex <$> vm_lookup (hash (pos v))
                                (bs_vertexMap (buildVertexMap ps)) in
  global_CSG = meshClass →
  ps !! i = Some p → k < length (vertices p) - 2 →
  ∃ out back w0 w1 w2 v0 v1 v2,
    exportThreeGeometry global_CSG (GeomCSG csg) angle = Returns out ∧
    importThreeGeometry out = Returns back ∧
    length (polygons back) = faceCount ps ∧
    polygons back !! (faceOffset ps i + k) =
      Some (Polygon_new [storedVertex w0; storedVertex w1; storedVertex w2]) ∧
    vertices p !! 0 = Some v0 ∧
    vertices p !! (k + 1) = Some v1 ∧
    vertices p !! (k + 2) = Some v2 ∧
    kept v0 = Some w0 ∧ kept v1 = Some w1 ∧ kept v2 = Some w2 ∧
    hash w0 = hash (pos v0) ∧ hash w1 = hash (pos v1) ∧
    hash w2 = hash (pos v2).
Proof.
  intros ps kept -> Hp Hk.
  set (smoothingAngle := default defaultSmoothingAngle angle).
  set (out := exportCSG csg smoothingAngle).
  destruct (importThreeGeometry_buffer out) as (back & Himport & Hback).
  destruct (exportCSG_emitted csg smoothingAngle)
    as (_ & _ & _ & indices & Hindex & Hlen & _).
  fold out in Hindex. rewrite Hindex in Hback. fold ps in Hlen.
  assert (faceOffset ps i + k < faceCount ps) as Hface.
  { pose proof (faceOffset_S ps i p Hp) as HS.
    pose proof (faceCount_app (take (S i) ps) (drop (S i) ps)) as Happ.
    rewrite take_drop in Happ. unfold faceOffset in *. lia. }
  destruct indices as [|i0 indices0]; [simpl in Hlen; lia|].
  set (indices := i0 :: indices0) in *.
  destruct Hback as [Hpolys Hpoly].
  assert ((length indices + 2) / 3 = faceCount ps) as Hdiv.
  { rewrite Hlen. euclid (3 * faceCount ps + 2) 3. lia. }
  rewrite Hdiv in Hpolys, Hpoly.
  destruct (fan_corner ps i p k 0 Hp Hk) as (v0 & Hv0 & Hc0); [lia|].
  destruct (fan_corner ps i p k 1 Hp Hk) as (v1 & Hv1 & Hc1); [lia|].
  destruct (fan_corner ps i p k 2 Hp Hk) as (v2 & Hv2 & Hc2); [lia|].
  destruct (export_getVertex csg smoothingAngle _ indices Hc0 Hindex)
    as (w0 & Hk0 & Hw0 & Hg0).
  destruct (export_getVertex csg smoothingAngle _ indices Hc1 Hindex)
    as (w1 & Hk1 & Hw1 & Hg1).
  destruct (export_getVertex csg smoothingAngle _ indices Hc2 Hindex)
    as (w2 & Hk2 & Hw2 & Hg2).
  fold out in Hg0, Hg1, Hg2. cbn [c_face c_idx] in Hg0, Hg1, Hg2.
  exists (GeomBuffer out), back, w0, w1, w2, v0, v1, v2.
  split_and!; try done.
  rewrite (Hpoly _ Hface). unfold getVertexes.
  rewrite <- Hg0, <- Hg1, <- Hg2.
  by rewrite Nat.add_0_r.
Qed.

(** X15. With [CSG] bound to the class of the meshes, and when
    [new Polygon(vertices)] keeps the vertices it is given, exporting
    what the import made of a buffer geometry gives as many triangles as
    the import made polygons, three vertices each: the vertices that the
    index of the input shared are no longer shared. *)
Theorem export_of_import global_CSG (geometry : BufferGeometry num)
    (angle : option num) :
  global_CSG = meshClass →
  (∀ vs, vertices (Polygon_new vs) = vs) →
  ∃ csg out,
    importThreeGeometry (GeomBuffer geometry) = Returns csg ∧
    exportThreeGeometry global_CSG (GeomCSG csg) angle =
      Returns (GeomBuffer out) ∧
    triangleCount out = length (polygons csg) ∧
    vertexCount out = 3 * length (polygons csg).
Proof.
  intros -> Hkeeps.
  assert (∀ (f : nat → list (Vertex num)) l,
            (∀ n, length (f n) = 3) →
            faceCount ((fun n => Polygon_new (f n)) <$> l) = length l) as Hcount.
  { intros f l Hf. unfold faceCount. rewrite <- list_fmap_compose.
    induction l as [|n l IH]; [done|].
    rewrite fmap_cons. cbn [sum_list sum_list_with length].
    rewrite IH. cbn. rewrite Hkeeps, Hf. done. }
  eexists _, _. split; [reflexivity|].
  split; [apply exportThreeGeometry_mesh|].
  rewrite triangleCount_export, vertexCount_export. cbn [polygons].
  destruct (bool_decide _); rewrite Hcount, ?length_fmap; done.
Qed.
End ReadBackFacts.

(** * Flat and smooth shading *)

Lemma omap_lookup_suffix {A} (l2 : list A) : ∀ l1,
  omap (fun j => (l1 ++ l2) !! j) (seq (length l1) (length l2)) = l2.
Proof.
  induction l2 as [|a l2 IH]; intros l1; [done|].
  cbn [length seq omap list_omap]. rewrite list_lookup_middle by done.
  f_equal. specialize (IH (l1 ++ [a])).
  rewrite length_app, Nat.add_1_r, <- app_assoc in IH. exact IH.
Qed.

Section Shading.
Context {num : Type} `{Numerics num}.
Implicit Types (csg : CSG num) (c : Corner num) (smoothingAngle : num)
  (vertexMap : VertexMap num) (e : VertexEntry num).

Lemma vm_lookup_elem vertexMap key e :
  vm_lookup key vertexMap = Some e → (key, e) ∈ vertexMap.
Proof.
  induction vertexMap as [|[k e'] vertexMap IH]; [done|]. cbn [vm_lookup].
  destruct (String.eqb k key) eqn:Hk.
  - apply String.eqb_eq in Hk as ->. intros [= ->]. left.
  - intros ?%IH. by right.
Qed.

Lemma averageNormal_single (normals : list (Vector3 num)) j normal :
  normals !! j = Some normal →
  averageNormal normals [j] =
  V3_normalize (V3_add (mkVector3 num_0 num_0 num_0) normal).
Proof. intros Hj. unfold averageNormal. cbn [foldl]. by rewrite Hj. Qed.

Lemma averageNormal_all (normals : list (Vector3 num)) :
  averageNormal normals (seq 0 (length normals)) = renormalizedSum normals.
Proof.
  unfold averageNormal, renormalizedSum.
  rewrite (foldl_omap (fun j => normals !! j) V3_add).
  pose proof (omap_lookup_suffix normals []) as Hall.
  cbn [app length] in Hall. by rewrite Hall.
Qed.

(** X16. Flat shading. With [CSG] bound to the class of the meshes, and
    when no two normals of any bucket are within the smoothing angle of
    each other, every corner gets in what the export returns a vertex with
    the normal of its own polygon: the zero vector plus that normal,
    renormalized. *)
Theorem flat_shading global_CSG csg (angle : option num) c :
  let smoothingAngle := default defaultSmoothingAngle angle in
  let vertexMap := bs_vertexMap (buildVertexMap (polygons csg)) in
  global_CSG = meshClass →
  (∀ key e i j iNorm jNorm,
     (key, e) ∈ vertexMap → i < j →
     ve_normals e !! i = Some iNorm → ve_normals e !! j = Some jNorm →
     num_le (V3_angleTo iNorm jNorm) smoothingAngle = false) →
  c ∈ corners (polygons csg) →
  ∃ out k indices normal,
    exportThreeGeometry global_CSG (GeomCSG csg) angle =
      Returns (GeomBuffer out) ∧
    index out = Some indices ∧ attr_normal out = Some normal ∧
    indices !! (3 * c_face c + c_idx c) = Some k ∧
    triple normal k =
    fround <$> xyz (V3_normalize
                      (V3_add (mkVector3 num_0 num_0 num_0) (c_normal c))).
Proof.
  intros smoothingAngle vertexMap -> Hflat Hc.
  set (out := exportCSG csg smoothingAngle).
  destruct (export_corner csg smoothingAngle c Hc)
    as (e & group & j & k & indices & normal & He & _ & Hgroup & Hj & _ &
        Hnormal & _ & Hindex & Hattr & Hk & _ & _ & Htriple & _).
  fold vertexMap in He. fold out in Hindex, Hattr.
  apply vm_lookup_elem in He.
  rewrite groupNormals_alone in Hgroup.
  2:{ intros i' j' [Hij Hlen].
      destruct (lookup_lt_is_Some_2 (ve_normals e) i') as [iNorm HiNorm]; [lia|].
      destruct (lookup_lt_is_Some_2 (ve_normals e) j' Hlen) as [jNorm HjNorm].
      rewrite (within_lookup _ _ _ _ _ _ HiNorm HjNorm).
      by apply (Hflat (c_key c) e i' j'). }
  apply list_elem_of_fmap in Hgroup as (i & -> & _).
  apply list_elem_of_singleton in Hj as ->.
  rewrite (averageNormal_single _ _ _ Hnormal) in Htriple.
  by exists out, k, indices, normal.
Qed.

(** X17. Smooth shading. With [CSG] bound to the class of the meshes,
    and when in every bucket the other normals are all within the
    smoothing angle of the first one, every corner gets in what the
    export returns a vertex with the normal of its bucket: the sum of all
    the normals of the bucket, renormalized. Corners with one key then
    have one normal. *)
Theorem smooth_shading global_CSG csg (angle : option num) c :
  let smoothingAngle := default defaultSmoothingAngle angle in
  let vertexMap := bs_vertexMap (buildVertexMap (polygons csg)) in
  global_CSG = meshClass →
  (∀ key e first j jNorm,
     (key, e) ∈ vertexMap → ve_normals e !! 0 = Some first → 0 < j →
     ve_normals e !! j = Some jNorm →
     num_le (V3_angleTo first jNorm) smoothingAngle = true) →
  c ∈ corners (polygons csg) →
  ∃ out e k indices normal,
    exportThreeGeometry global_CSG (GeomCSG csg) angle =
      Returns (GeomBuffer out) ∧
    vm_lookup (c_key c) vertexMap = Some e ∧
    index out = Some indices ∧ attr_normal out = Some normal ∧
    indices !! (3 * c_face c + c_idx c) = Some k ∧
    triple normal k = fround <$> xyz (renormalizedSum (ve_normals e)).
Proof.
  intros smoothingAngle vertexMap -> Hsmooth Hc.
  set (out := exportCSG csg smoothingAngle).
  destruct (export_corner csg smoothingAngle c Hc)
    as (e & group & j & k & indices & normal & He & _ & Hgroup & Hj & _ &
        Hnormal & _ & Hindex & Hattr & Hk & _ & _ & Htriple & _).
  fold vertexMap in He. fold out in Hindex, Hattr.
  pose proof (vm_lookup_elem _ _ _ He) as Hin.
  rewrite groupNormals_around_first in Hgroup.
  - apply list_elem_of_singleton in Hgroup as ->.
    rewrite averageNormal_all in Htriple.
    by exists out, e, k, indices, normal.
  - intros Hnil. by rewrite Hnil in Hnormal.
  - intros j' [Hj' Hlen].
    destruct (lookup_lt_is_Some_2 (ve_normals e) 0) as [first Hfirst]; [lia|].
    destruct (lookup_lt_is_Some_2 (ve_normals e) j' Hlen) as [jNorm HjNorm].
    rewrite (within_lookup _ _ _ _ _ _ Hfirst HjNorm).
    by apply (Hsmooth (c_key c) e first j').
Qed.
End Shading.

(** * More on the import and on the dispatch *)

Section ImportRange.
Context {num : Type} `{MathIndex num}.

(** X18. An index entry that points past the end of the position array
    raises nothing: the import returns, and the vertex made for that
    entry, number [x mod 3] of polygon [x / 3], has three [undefined]
    coordinates. *)
Theorem import_out_of_range (geometry : BufferGeometry num) vertices x i :
  let vectors := attr_position geometry in
  index geometry = Some vertices →
  vertices !! x = Some i →
  length vectors ≤ i * 3 →
  ∃ csg vs,
    importThreeGeometry (GeomBuffer geometry) = Returns csg ∧
    polygons csg !! (x / 3) = Some (Polygon_new vs) ∧
    vs !! (x mod 3) = Some (mkVertex (Vector_new None None None)).
Proof.
  intros vectors Hindex Hx Hi.
  destruct (importThreeGeometry_buffer geometry) as (csg & Himport & Hcsg).
  rewrite Hindex in Hcsg. fold vectors in Hcsg.
  pose proof (lookup_lt_Some _ _ _ Hx) as Hlt.
  destruct vertices as [|i0 rest]; [done|].
  set (vertices := i0 :: rest) in *.
  destruct Hcsg as [_ Hpoly].
  exists csg, (getVertexes vertices vectors (x / 3 * 3)).
  split_and!; [done|..].
  - apply Hpoly. euclid x 3. euclid (length vertices + 2) 3. nia.
  - assert (getVertex vertices vectors x = mkVertex (Vector_new None None None))
      as Hundefined.
    { unfold getVertex, getVector. rewrite Hx. cbn [mbind option_bind].
      by rewrite !lookup_ge_None_2 by lia. }
    euclid x 3. unfold getVertexes.
    destruct (x mod 3) as [|[|[|m]]] eqn:Hm; [| | |lia];
      cbn [lookup list_lookup]; rewrite <- Hundefined; do 2 f_equal; lia.
Qed.
End ImportRange.

Section PrepareFacts.
Context {num value : Type} `{Numerics num} `{MathIndex num} `{CoreCSG num value}.

(** X19. An input without a colour, because its entry of [colors] is
    missing or is not an object, and whose object is given at no position
    that has a colour, is converted and nothing else: what
    [prepareObjects] returns in its place is what the import returns for
    it, and [setColor] has not been applied to it. The output has one
    mesh for every input, in the order of the inputs. *)
Theorem prepare_without_color objects colors i object :
  objects !! i = Some object →
  colors !! i = None ∨ colors !! i = Some None →
  stands_alone objects colors i →
  ∃ converted csg,
    prepareObjects objects colors = Returns converted ∧
    length converted = length objects ∧
    importThreeGeometry object = Returns csg ∧
    converted !! i = Some csg.
Proof.
  intros Hobject Hcolor _. unfold prepareObjects.
  destruct (prepareFrom_returns 0 objects colors)
    as (converted & Hprepare & Hlen & Heach).
  destruct (Heach i object Hobject) as (csg & Himport & Hi).
  exists converted, csg. split_and!; try done.
  rewrite Hi. cbn [Nat.add]. by destruct Hcolor as [-> | ->].
Qed.
End PrepareFacts.

(** * The tag of a vertex *)

Section TagFacts.
Context {num tag world : Type} `{TagSource tag world}.
Implicit Types (this : VertexObject num tag) (w : world).

(** X20. Once [getTag] has returned a truthy tag, the vertex keeps it:
    every later call returns the same tag, leaves the vertex as it is and
    does not touch the tag source. The position is the one the vertex
    had. *)
Theorem getTag_cached this w t this' w' :
  getTag this w = (t, this', w') → truthy t = true →
  vo_pos this' = vo_pos this ∧
  ∀ w'', getTag this' w'' = (t, this', w'').
Proof.
  unfold getTag. intros Hcall Ht.
  assert (vo_tag this' = Some t ∧ vo_pos this' = vo_pos this) as [Htag Hpos].
  { destruct (vo_tag this) as [result|] eqn:Hthis;
      [destruct (truthy result) eqn:Hresult|];
      destruct (window_getTag w) as [result' w1];
      by simplify_eq. }
  split; [done|]. intros w''. by rewrite Htag, Ht.
Qed.

(** X21. A falsy tag is stored but never served: when [getTag] returns
    a falsy tag it has asked the tag source for it, and every later call
    on the vertex asks the tag source again. *)
Theorem getTag_falsy_regenerates this w t this' w' :
  getTag this w = (t, this', w') → truthy t = false →
  window_getTag w = (t, w') ∧
  ∀ w'', getTag this' w'' =
         (let '(result, w3) := window_getTag w'' in
          (result, mkVertexObject (vo_pos this) (Some result), w3)).
Proof.
  unfold getTag. intros Hcall Ht.
  assert (window_getTag w = (t, w') ∧
          this' = mkVertexObject (vo_pos this) (Some t)) as [Hsource ->].
  { destruct (vo_tag this) as [result|] eqn:Hthis;
      [destruct (truthy result) eqn:Hresult|];
      destruct (window_getTag w) as [result' w1];
      simplify_eq; first [done | congruence]. }
  split; [done|]. intros w''. cbn [vo_tag vo_pos]. by rewrite Ht.
Qed.
End TagFacts.

(** * Worked examples for the import, the grouping and the tags *)

Module Worked.
Import ExactNumbers.

(** One indexed triangle is read as one polygon. *)
Lemma import_indexed_in_range_witness :
  index one_triangle = Some [0; 1; 2] ∧
  ∃ csg, importThreeGeometry (GeomBuffer one_triangle) = Returns csg ∧
         length (polygons csg) = 1.
Proof.
  split; [reflexivity|].
  destruct (import_indexed_in_range one_triangle 0 [1; 2] eq_refl eq_refl)
    as (csg & Himport & Hlen & _).
  - repeat constructor; vm_compute; lia.
  - exists csg. split; [exact Himport|exact Hlen].
Defined.

(** Nine floats are read as one polygon. *)
Lemma import_soup_in_range_witness :
  length (attr_position triangle_soup) mod 9 = 0 ∧
  ∃ csg, importThreeGeometry (GeomBuffer triangle_soup) = Returns csg ∧
         length (polygons csg) = 1.
Proof.
  split; [reflexivity|].
  destruct (import_soup_in_range triangle_soup eq_refl eq_refl)
    as (csg & Himport & Hlen & _).
  exists csg. split; [exact Himport|exact Hlen].
Defined.

(** Four index entries are read as two polygons. *)
Lemma import_partial_triangle_witness :
  length [0; 1; 2; 0] mod 3 ≠ 0 ∧
  ∃ csg, importThreeGeometry (GeomBuffer four_indices) = Returns csg ∧
         length (polygons csg) = 2.
Proof.
  assert (length [0; 1; 2; 0] mod 3 ≠ 0) as Hmod by (vm_compute; lia).
  split; [exact Hmod|].
  destruct (import_partial_triangle four_indices [0; 1; 2; 0] eq_refl Hmod)
    as (csg & Himport & Hlen & _).
  exists csg. split; [exact Himport|exact Hlen].
Defined.

(** The same normal twice makes one group of two. *)
Lemma group_members_within_seed_witness :
  [0; 1] ∈ groupNormals forty_degrees same_twice ∧
  ∃ i rest, [0; 1] = i :: rest ∧ ∀ j, j ∈ rest → i < j.
Proof.
  assert ([0; 1] ∈ groupNormals forty_degrees same_twice) as Hgroup
    by (vm_compute; left).
  split; [exact Hgroup|].
  destruct (group_members_within_seed forty_degrees same_twice [0; 1] Hgroup)
    as (i & rest & Heq & Hrest).
  exists i, rest. split; [exact Heq|].
  intros j Hj. apply (Hrest j Hj).
Defined.

(** Two normals at a right angle make two groups, and the second normal
    is not within forty degrees of the first. *)
Lemma later_groups_beyond_seed_witness :
  groupNormals forty_degrees right_angle = [[0]; [1]] ∧
  num_le (V3_angleTo (vec 0 0 1) (vec 1 0 0)) forty_degrees = false.
Proof.
  split; [reflexivity|].
  apply (later_groups_beyond_seed forty_degrees right_angle 0 1 0 [] [1] 1);
    [reflexivity|reflexivity|lia|left|reflexivity|reflexivity].
Defined.

(** The same normal twice: everything is around the first. *)
Lemma one_group_around_first_witness :
  same_twice !! 0 = Some (vec 0 0 1) ∧
  groupNormals forty_degrees same_twice = [seq 0 (length same_twice)].
Proof.
  split; [reflexivity|].
  apply (one_group_around_first forty_degrees same_twice (vec 0 0 1) eq_refl).
  intros [|[|j]] jNorm Hj Hlookup.
  - lia.
  - injection Hlookup as <-. reflexivity.
  - discriminate Hlookup.
Defined.

(** Two normals at a right angle: each on its own. *)
Lemma every_instance_alone_witness :
  num_le (V3_angleTo (vec 0 0 1) (vec 1 0 0)) forty_degrees = false ∧
  groupNormals forty_degrees right_angle =
  (fun i => [i]) <$> seq 0 (length right_angle).
Proof.
  split; [reflexivity|].
  apply (every_instance_alone forty_degrees right_angle).
  intros [|[|i]] [|[|j]] iNorm jNorm Hij Hi Hj;
    try lia; try discriminate Hi; try discriminate Hj.
  injection Hi as <-. injection Hj as <-. reflexivity.
Defined.

(** The unit square goes out well formed. *)
Lemma export_well_formed_witness :
  ∃ out,
    exportThreeGeometry meshClass (GeomCSG unit_square) None =
      Returns (GeomBuffer out) ∧
    well_formed_buffer out = true.
Proof.
  destruct (export_well_formed meshClass unit_square None eq_refl)
    as (out & Hout & Hwell & _).
  exists out. split; [exact Hout|exact Hwell].
Defined.

(** The unit square has the same positions at forty degrees and at no
    angle at all. *)
Lemma position_buffer_ignores_angle_witness :
  ∃ out out',
    exportThreeGeometry meshClass (GeomCSG unit_square) (Some forty_degrees) =
      Returns (GeomBuffer out) ∧
    exportThreeGeometry meshClass (GeomCSG unit_square) (Some NaN) =
      Returns (GeomBuffer out') ∧
    attr_position out = attr_position out'.
Proof.
  destruct (position_buffer_ignores_angle meshClass unit_square
              (Some forty_degrees) (Some NaN) eq_refl)
    as (out & out' & Hout & Hout' & _ & Hsame).
  exists out, out'. split_and!; [exact Hout|exact Hout'|exact Hsame].
Defined.

(** The corner of the second triangle of the unit square at the origin
    gets the position of the corner of the first triangle there. *)
Lemma bucket_keeps_first_position_witness :
  origin_corner 1 ∈ corners (polygons unit_square) ∧
  ∃ out first k,
    exportThreeGeometry meshClass (GeomCSG unit_square) (Some forty_degrees) =
      Returns (GeomBuffer out) ∧
    c_key first = c_key (origin_corner 1) ∧
    default [] (index out) !! 3 = Some k ∧
    triple (attr_position out) k = fround <$> xyz (c_vertex first).
Proof.
  assert (origin_corner 1 ∈ corners (polygons unit_square)) as H1
    by (apply (list_elem_of_lookup_2 _ 3); reflexivity).
  split; [exact H1|].
  destruct (bucket_keeps_first_position meshClass unit_square
              (Some forty_degrees) _ eq_refl H1)
    as (out & before & first & after & k & indices & Hout & _ & Hkey & _ &
        Hindex & Hk & Hpos).
  exists out, first, k. rewrite Hindex.
  split_and!; [exact Hout|exact Hkey|exact Hk|exact Hpos].
Defined.

(** A sliver of two vertices beside the unit square changes nothing. *)
Lemma degenerate_polygons_dropped_witness :
  ∃ out out',
    exportThreeGeometry meshClass (GeomCSG square_and_sliver)
      (Some forty_degrees) = Returns (GeomBuffer out) ∧
    exportThreeGeometry meshClass (GeomCSG unit_square)
      (Some forty_degrees) = Returns (GeomBuffer out') ∧
    index out = index out'.
Proof.
  destruct (degenerate_polygons_dropped meshClass square_and_sliver
              (Some forty_degrees) eq_refl)
    as (out & out' & Hout & Hout' & _ & _ & Hindex & _).
  exists out, out'. split_and!; [exact Hout|exact Hout'|exact Hindex].
Defined.

(** The two-tone square has the geometry of the plain one. *)
Lemma colours_leave_geometry_witness :
  vertices <$> polygons two_tone_square = vertices <$> polygons unit_square ∧
  plane_normal <$> polygons two_tone_square =
    plane_normal <$> polygons unit_square ∧
  ∃ out out',
    exportThreeGeometry meshClass (GeomCSG two_tone_square)
      (Some forty_degrees) = Returns (GeomBuffer out) ∧
    exportThreeGeometry meshClass (GeomCSG unit_square)
      (Some forty_degrees) = Returns (GeomBuffer out') ∧
    index out = index out'.
Proof.
  split_and!; [reflexivity|reflexivity|].
  destruct (colours_leave_geometry meshClass two_tone_square unit_square
              (Some forty_degrees) eq_refl eq_refl eq_refl)
    as (out & out' & Hout & Hout' & _ & _ & Hindex).
  exists out, out'. split_and!; [exact Hout|exact Hout'|exact Hindex].
Defined.

(** Red is exported alike, opaque or half-transparent. *)
Lemma alpha_not_exported_witness :
  shared_color <$> polygons faint_square ≠
    shared_color <$> polygons two_tone_square ∧
  exportThreeGeometry meshClass (GeomCSG faint_square) (Some forty_degrees) =
  exportThreeGeometry meshClass (GeomCSG two_tone_square) (Some forty_degrees).
Proof.
  split; [discriminate|].
  destruct (alpha_not_exported meshClass faint_square two_tone_square
              (Some forty_degrees) eq_refl)
    as (out & Hout & Hout').
  - repeat constructor.
  - rewrite Hout, Hout'. reflexivity.
Defined.

(** The quad comes back as two triangles. *)
Lemma import_of_export_witness :
  polygons unit_quad !! 0 = Some quad ∧ 1 < length (vertices quad) - 2 ∧
  ∃ out back,
    exportThreeGeometry meshClass (GeomCSG unit_quad) (Some forty_degrees) =
      Returns out ∧
    importThreeGeometry out = Returns back ∧
    length (polygons back) = faceCount (polygons unit_quad).
Proof.
  assert (1 < length (vertices quad) - 2) as Hk by (vm_compute; lia).
  split_and!; [reflexivity|exact Hk|].
  destruct (import_of_export meshClass unit_quad (Some forty_degrees) 0 quad 1
              eq_refl eq_refl Hk)
    as (out & back & _ & _ & _ & _ & _ & _ & Hout & Himport & Hlen & _).
  exists out, back. split_and!; [exact Hout|exact Himport|exact Hlen].
Defined.

(** One indexed triangle goes out as one triangle of three vertices. *)
Lemma export_of_import_witness :
  (∀ vs : list (Vertex jsnum), vertices (Polygon_new vs) = vs) ∧
  ∃ csg out,
    importThreeGeometry (GeomBuffer one_triangle) = Returns csg ∧
    exportThreeGeometry meshClass (GeomCSG csg) (Some forty_degrees) =
      Returns (GeomBuffer out) ∧
    triangleCount out = length (polygons csg).
Proof.
  assert (∀ vs : list (Vertex jsnum), vertices (Polygon_new vs) = vs) as Hkeeps
    by reflexivity.
  split; [exact Hkeeps|].
  destruct (export_of_import meshClass one_triangle (Some forty_degrees)
              eq_refl Hkeeps)
    as (csg & out & Himport & Hout & HT & _).
  exists csg, out. split_and!; [exact Himport|exact Hout|exact HT].
Defined.

(** No angle is at most NaN: the corner of the second triangle of the
    unit square at the origin keeps the normal of its triangle. *)
Lemma flat_shading_witness :
  origin_corner 1 ∈ corners (polygons unit_square) ∧
  ∃ out k,
    exportThreeGeometry meshClass (GeomCSG unit_square) (Some NaN) =
      Returns (GeomBuffer out) ∧
    default [] (index out) !! 3 = Some k ∧
    triple (default [] (attr_normal out)) k = [Num 0; Num 0; Num 1].
Proof.
  assert (origin_corner 1 ∈ corners (polygons unit_square)) as H1
    by (apply (list_elem_of_lookup_2 _ 3); reflexivity).
  split; [exact H1|].
  destruct (flat_shading meshClass unit_square (Some NaN) (origin_corner 1)
              eq_refl)
    as (out & k & indices & normal & Hout & Hindex & Hnormal & Hk & Htriple).
  - intros key e i j iNorm jNorm _ _ _ _.
    destruct (V3_angleTo iNorm jNorm); reflexivity.
  - exact H1.
  - exists out, k. rewrite Hindex, Hnormal.
    split_and!; [exact Hout|exact Hk|exact Htriple].
Defined.

(** In the unit square all normals are the same: the corner of the second
    triangle at the origin gets the normal of its bucket. *)
Lemma smooth_shading_witness :
  origin_corner 1 ∈ corners (polygons unit_square) ∧
  ∃ out k,
    exportThreeGeometry meshClass (GeomCSG unit_square) None =
      Returns (GeomBuffer out) ∧
    default [] (index out) !! 3 = Some k ∧
    triple (default [] (attr_normal out)) k = [Num 0; Num 0; Num 1].
Proof.
  assert (origin_corner 1 ∈ corners (polygons unit_square)) as H1
    by (apply (list_elem_of_lookup_2 _ 3); reflexivity).
  split; [exact H1|].
  destruct (smooth_shading meshClass unit_square None (origin_corner 1)
              eq_refl)
    as (out & e & k & indices & normal & Hout & He & Hindex & Hnormal & Hk &
        Htriple).
  - intros key e first j jNorm Hin Hfirst Hj HjNorm.
    vm_compute in Hin.
    repeat (apply elem_of_cons in Hin as [Hin|Hin];
            [injection Hin as -> ->;
             destruct j as [|[|j]]; [lia| |discriminate HjNorm];
             first [discriminate HjNorm
                   |injection Hfirst as <-; injection HjNorm as <-;
                    reflexivity]|]).
    by apply elem_of_nil in Hin.
  - exact H1.
  - exists out, k. rewrite Hindex, Hnormal.
    split_and!; [exact Hout|exact Hk|].
    injection He as <-. exact Htriple.
Defined.

(** The entry 7 of the index has no position. *)
Lemma import_out_of_range_witness :
  length (attr_position stray_index) ≤ 7 * 3 ∧
  ∃ csg vs,
    importThreeGeometry (GeomBuffer stray_index) = Returns csg ∧
    polygons csg !! 0 = Some (Polygon_new vs) ∧
    vs !! 2 = Some (mkVertex (mkVector3 NaN NaN NaN)).
Proof.
  assert (length (attr_position stray_index) ≤ 7 * 3) as Hrange
    by (vm_compute; lia).
  split; [exact Hrange|].
  destruct (import_out_of_range stray_index [0; 1; 7] 2 7 eq_refl eq_refl Hrange)
    as (csg & vs & Himport & Hpolygon & Hvertex).
  exists csg, vs. split_and!; [exact Himport|exact Hpolygon|exact Hvertex].
Defined.

(** The unit square, given without a colour beside a coloured quad, is
    handed on as it is. *)
Lemma prepare_without_color_witness :
  let objects := [GeomCSG unit_square; GeomCSG unit_quad] in
  let colors := [None; Some green_glass] in
  stands_alone objects colors 0 ∧
  ∃ converted,
    prepareObjects (value := CSG jsnum) objects colors = Returns converted ∧
    converted !! 0 = Some unit_square.
Proof.
  intros objects colors.
  assert (stands_alone objects colors 0) as Halone.
  { intros [|[|j]] c' Hj Hcolor; [lia|discriminate|discriminate Hcolor]. }
  split; [exact Halone|].
  destruct (prepare_without_color (value := CSG jsnum)
              objects colors 0 (GeomCSG unit_square)
              eq_refl (or_intror eq_refl) Halone)
    as (converted & csg & Hprepare & _ & Himport & Hi).
  exists converted. split; [exact Hprepare|].
  injection Himport as <-. exact Hi.
Defined.

(** The counter at 1 gives the tag 1, which stays. *)
Lemma getTag_cached_witness :
  getTag untagged 1 = (1, mkVertexObject (vec 0 0 0) (Some 1), 2) ∧
  ∀ w, getTag (mkVertexObject (vec 0 0 0) (Some 1)) w =
       (1, mkVertexObject (vec 0 0 0) (Some 1), w).
Proof.
  assert (getTag untagged 1 = (1, mkVertexObject (vec 0 0 0) (Some 1), 2))
    as Hcall by reflexivity.
  split; [exact Hcall|].
  apply (getTag_cached untagged 1 1 _ 2 Hcall eq_refl).
Defined.

(** The counter at 0 gives the tag 0, which does not stay. *)
Lemma getTag_falsy_regenerates_witness :
  getTag untagged 0 = (0, mkVertexObject (vec 0 0 0) (Some 0), 1) ∧
  getTag (mkVertexObject (vec 0 0 0) (Some 0)) 5 =
  (5, mkVertexObject (vec 0 0 0) (Some 5), 6).
Proof.
  assert (getTag untagged 0 = (0, mkVertexObject (vec 0 0 0) (Some 0), 1))
    as Hcall by reflexivity.
  split; [exact Hcall|].
  apply (getTag_falsy_regenerates untagged 0 0 _ 1 Hcall eq_refl).
Defined.
End Worked.
